(** * marimo-docs-mcp: a shallow embedding of the documentation server

    The server (src/index.ts) resolves an element name through a fixed
    endpoint table, issues one HTTP GET, extracts a record from the page
    with cheerio and answers two tools, [get_element_api] and
    [search_api].  This file embeds the data model and the operations of
    the TypeScript class [MarimoDocs] and proves the properties its
    specification states about them.

    A JavaScript string is modelled as the [string] of the bytes of its
    UTF-8 encoding.  The white space [trim] strips is the white space of
    ECMAScript, in that encoding.  [toLowerCase], which follows the case
    tables of the Unicode version an engine carries, is a parameter of
    the operations; [Js.lower_ascii] is what it does to a string of the
    ASCII range. *)

From Stdlib Require Import Ascii String ZArith NArith Lia.
From stdpp Require Import base option list strings gmap.

Local Open Scope stdpp_scope.

(** ** JavaScript strings *)

Module Js.

Definition slash : ascii := "/"%char.
Definition colon : ascii := ":"%char.
Definition dquote : ascii := ascii_of_nat 34.
Definition backslash : ascii := ascii_of_nat 92.

(** [String.prototype.startsWith]. *)
Fixpoint startsWith (s prefix : string) {struct prefix} : bool :=
  match prefix, s with
  | EmptyString, _ => true
  | String p prefix', String c s' => Ascii.eqb c p && startsWith s' prefix'
  | String _ _, EmptyString => false
  end.

(** [String.prototype.includes]: [needle] occurs in [s] at some offset. *)
Fixpoint includes (s needle : string) : bool :=
  startsWith s needle ||
  match s with
  | EmptyString => false
  | String _ s' => includes s' needle
  end.

(** The string of the given bytes. *)
Definition bytes (l : list nat) : string :=
  fold_right (fun n s => String (ascii_of_nat n) s) EmptyString l.

(** The characters [String.prototype.trim] strips: the WhiteSpace and the
    LineTerminator code points of ECMAScript, each as its UTF-8 bytes. *)
Definition white_space : list string :=
  [ bytes [9];              (* U+0009 character tabulation *)
    bytes [10];             (* U+000A line feed *)
    bytes [11];             (* U+000B line tabulation *)
    bytes [12];             (* U+000C form feed *)
    bytes [13];             (* U+000D carriage return *)
    bytes [32];             (* U+0020 space *)
    bytes [194; 160];       (* U+00A0 no-break space *)
    bytes [225; 154; 128];  (* U+1680 ogham space mark *)
    bytes [226; 128; 128];  (* U+2000 en quad *)
    bytes [226; 128; 129];  (* U+2001 em quad *)
    bytes [226; 128; 130];  (* U+2002 en space *)
    bytes [226; 128; 131];  (* U+2003 em space *)
    bytes [226; 128; 132];  (* U+2004 three-per-em space *)
    bytes [226; 128; 133];  (* U+2005 four-per-em space *)
    bytes [226; 128; 134];  (* U+2006 six-per-em space *)
    bytes [226; 128; 135];  (* U+2007 figure space *)
    bytes [226; 128; 136];  (* U+2008 punctuation space *)
    bytes [226; 128; 137];  (* U+2009 thin space *)
    bytes [226; 128; 138];  (* U+200A hair space *)
    bytes [226; 128; 168];  (* U+2028 line separator *)
    bytes [226; 128; 169];  (* U+2029 paragraph separator *)
    bytes [226; 128; 175];  (* U+202F narrow no-break space *)
    bytes [226; 129; 159];  (* U+205F medium mathematical space *)
    bytes [227; 128; 128];  (* U+3000 ideographic space *)
    bytes [239; 187; 191]   (* U+FEFF zero width no-break space *) ].

Definition white (w : string) : bool := existsb (String.eqb w) white_space.

(** [String.prototype.trimStart]: the white space at the head goes, one
    character of one, two or three bytes at a time. *)
Fixpoint trimStart (s : string) : string :=
  match s with
  | EmptyString => EmptyString
  | String c1 s1 =>
      if white (String c1 EmptyString) then trimStart s1
      else
        match s1 with
        | EmptyString => s
        | String c2 s2 =>
            if white (String c1 (String c2 EmptyString)) then trimStart s2
            else
              match s2 with
              | EmptyString => s
              | String c3 s3 =>
                  if white (String c1 (String c2 (String c3 EmptyString)))
                  then trimStart s3
                  else s
              end
        end
  end.

(** The string is white space throughout. *)
Definition blank (s : string) : bool :=
  match trimStart s with EmptyString => true | String _ _ => false end.

(** [String.prototype.trimEnd]: the shortest head of the string behind
    which only white space is left. *)
Fixpoint trimEnd (s : string) : string :=
  match s with
  | EmptyString => EmptyString
  | String c s' => if blank s then EmptyString else String c (trimEnd s')
  end.

(** [String.prototype.trim]. *)
Definition trim (s : string) : string := trimStart (trimEnd s).

(** [String.prototype.toLowerCase] on a string of the ASCII range: the
    letters A to Z are folded. *)
Definition lower_char (c : ascii) : ascii :=
  let n := nat_of_ascii c in
  if (65 <=? n)%nat && (n <=? 90)%nat then ascii_of_nat (n + 32) else c.

Fixpoint lower_ascii (s : string) : string :=
  match s with
  | EmptyString => EmptyString
  | String c s' => String (lower_char c) (lower_ascii s')
  end.

(** [s.split(sep)] for a one-character separator: the pieces between the
    separators, empty pieces included, so the result is never empty. *)
Fixpoint split (sep : ascii) (s : string) : list string :=
  match s with
  | EmptyString => [EmptyString]
  | String c s' =>
      if Ascii.eqb c sep then EmptyString :: split sep s'
      else match split sep s' with
           | piece :: pieces => String c piece :: pieces
           | [] => [String c EmptyString]
           end
  end.

(** [Array.prototype.join]. *)
Fixpoint join (sep : string) (l : list string) : string :=
  match l with
  | [] => EmptyString
  | [x] => x
  | x :: l' => x +:+ sep +:+ join sep l'
  end.

(** A string is falsy exactly when it is empty. *)
Definition truthy_string (s : string) : bool :=
  match s with EmptyString => false | _ => true end.

(** [a || b] on strings. *)
Definition or_else (a b : string) : string :=
  if truthy_string a then a else b.

(** [s.replace(/([^:]\/)\/+/g, "$1")], the duplicate-slash removal of
    [fetchDoc].  The scan goes left to right.  At a character [c] other
    than a colon that is followed by two slashes the match is [c], a
    slash, and the whole run of slashes after it; it is replaced by [c]
    and one slash, and the scan resumes behind the run ([skip] is set
    while the run is consumed).  Anywhere else the character is copied. *)
Fixpoint replace_dup_slashes_from (skip : bool) (s : string) : string :=
  match s with
  | EmptyString => EmptyString
  | String c t =>
      if skip && Ascii.eqb c slash then replace_dup_slashes_from true t
      else
        match t with
        | String c1 (String c2 u) =>
            if negb (Ascii.eqb c colon) && Ascii.eqb c1 slash && Ascii.eqb c2 slash
            then String c (String slash (replace_dup_slashes_from true u))
            else String c (replace_dup_slashes_from false t)
        | _ => String c (replace_dup_slashes_from false t)
        end
  end.

Definition replace_dup_slashes (s : string) : string :=
  replace_dup_slashes_from false s.

End Js.


(** ** Plain JavaScript objects used as dictionaries *)

Module JsObject.

(** The own string-keyed properties of an object, in creation order.
    Keys are unique. *)
Definition obj (V : Type) : Type := list (string * V).

(** The property names a plain object inherits from [Object.prototype]. *)
Definition prototype_names : list string :=
  [ "constructor"; "__defineGetter__"; "__defineSetter__"; "hasOwnProperty";
    "__lookupGetter__"; "__lookupSetter__"; "isPrototypeOf";
    "propertyIsEnumerable"; "toString"; "valueOf"; "__proto__";
    "toLocaleString" ].

Definition inherited (k : string) : bool :=
  existsb (String.eqb k) prototype_names.

Fixpoint own {V} (o : obj V) (k : string) : option V :=
  match o with
  | [] => None
  | (k', v) :: o' => if String.eqb k' k then Some v else own o' k
  end.

(** What the property read [o[k]] evaluates to: an own value, a member of
    [Object.prototype] (a function, or the prototype itself for
    [__proto__]), or [undefined]. *)
Inductive value (V : Type) : Type :=
  | Own (v : V)
  | Inherited (k : string)
  | Undefined.
Arguments Own {V} v.
Arguments Inherited {V} k.
Arguments Undefined {V}.

Definition get {V} (o : obj V) (k : string) : value V :=
  match own o k with
  | Some v => Own v
  | None => if inherited k then Inherited k else Undefined
  end.

(** The assignment [o[k] = v] for a key that is not [__proto__]: an own
    property keeps its place, a new one goes last. *)
Fixpoint set {V} (o : obj V) (k : string) (v : V) : obj V :=
  match o with
  | [] => [(k, v)]
  | (k', v') :: o' =>
      if String.eqb k' k then (k', v) :: o' else (k', v') :: set o' k v
  end.

(** Array indices: the canonical decimal numerals below 2^32 - 1. *)
Definition digit (c : ascii) : option N :=
  let n := nat_of_ascii c in
  if (48 <=? n)%nat && (n <=? 57)%nat then Some (N.of_nat (n - 48)) else None.

Fixpoint decimal (acc : N) (s : string) : option N :=
  match s with
  | EmptyString => Some acc
  | String c s' =>
      match digit c with
      | Some d => decimal (10 * acc + d)%N s'
      | None => None
      end
  end.

Definition array_index (k : string) : option N :=
  match k with
  | EmptyString => None
  | String c rest =>
      if Ascii.eqb c "0"%char && Js.truthy_string rest then None
      else match decimal 0 k with
           | Some n => if (n <? 4294967295)%N then Some n else None
           | None => None
           end
  end.

Definition is_array_index (k : string) : bool :=
  match array_index k with Some _ => true | None => false end.

Fixpoint insert_by_index {A} (n : N) (x : A) (l : list (N * A)) : list (N * A) :=
  match l with
  | [] => [(n, x)]
  | (m, y) :: l' =>
      if (n <? m)%N then (n, x) :: l else (m, y) :: insert_by_index n x l'
  end.

Definition index_entries {V} (o : obj V) : list (N * (string * V)) :=
  fold_right
    (fun kv acc =>
       match array_index (fst kv) with
       | Some n => insert_by_index n kv acc
       | None => acc
       end)
    [] o.

(** [Object.entries(o)]: the array indices in ascending order, then the
    other keys in creation order. *)
Definition entries {V} (o : obj V) : list (string * V) :=
  List.map snd (index_entries o)
  ++ List.filter (fun kv => negb (is_array_index (fst kv))) o.

(** [Object.keys(o)]. *)
Definition keys {V} (o : obj V) : list string := List.map fst (entries o).

End JsObject.

(** ** JSON.stringify *)

Module Json.

#[local] Set Warnings "-register-all".

Inductive json : Type :=
  | JString (s : string)
  | JBool (b : bool)
  | JArray (items : list json)
  | JObject (fields : list (string * json)).

Definition hex_digit (n : nat) : ascii :=
  if (n <? 10)%nat then ascii_of_nat (48 + n) else ascii_of_nat (87 + n).

(** The escape of one code unit inside a JSON string. *)
Definition escape_char (c : ascii) : string :=
  let n := nat_of_ascii c in
  if Ascii.eqb c Js.dquote then String Js.backslash (String Js.dquote EmptyString)
  else if Ascii.eqb c Js.backslash then String Js.backslash (String Js.backslash EmptyString)
  else if (n =? 8)%nat then String Js.backslash "b"
  else if (n =? 9)%nat then String Js.backslash "t"
  else if (n =? 10)%nat then String Js.backslash "n"
  else if (n =? 12)%nat then String Js.backslash "f"
  else if (n =? 13)%nat then String Js.backslash "r"
  else if (n <? 32)%nat then
    String Js.backslash
      ("u00" +:+ String (hex_digit (n / 16)) (String (hex_digit (n mod 16)) EmptyString))
  else String c EmptyString.

Fixpoint escape (s : string) : string :=
  match s with
  | EmptyString => EmptyString
  | String c s' => escape_char c +:+ escape s'
  end.

Definition quote (s : string) : string :=
  String Js.dquote (escape s +:+ String Js.dquote EmptyString).

(** [JSON.stringify(j)]. *)
Fixpoint stringify (j : json) : string :=
  match j with
  | JString s => quote s
  | JBool b => if b then "true" else "false"
  | JArray items => "[" +:+ Js.join "," (List.map stringify items) +:+ "]"
  | JObject fields =>
      "{" +:+ Js.join ","
                (List.map (fun kv => quote (fst kv) +:+ ":" +:+ stringify (snd kv)) fields)
          +:+ "}"
  end.

Definition newline : string := String (ascii_of_nat 10) EmptyString.

(** [JSON.stringify(j, null, 2)] at the indentation [ind]. *)
Fixpoint stringify_indent (ind : string) (j : json) : string :=
  let inner := ind +:+ "  " in
  let sep := "," +:+ newline +:+ inner in
  match j with
  | JString s => quote s
  | JBool b => if b then "true" else "false"
  | JArray [] => "[]"
  | JArray items =>
      "[" +:+ newline +:+ inner
          +:+ Js.join sep (List.map (stringify_indent inner) items)
          +:+ newline +:+ ind +:+ "]"
  | JObject [] => "{}"
  | JObject fields =>
      "{" +:+ newline +:+ inner
          +:+ Js.join sep
                (List.map
                   (fun kv => quote (fst kv) +:+ ": " +:+ stringify_indent inner (snd kv))
                   fields)
          +:+ newline +:+ ind +:+ "}"
  end.

Definition stringify_pretty (j : json) : string := stringify_indent EmptyString j.

End Json.


(** ** The cheerio selections the extractor uses *)

Module Cheerio.

#[local] Set Warnings "-register-all".

(** A parsed document is a forest of text and element nodes. *)
Inductive node : Type :=
  | Text (data : string)
  | Element (tag : string) (attribs : list (string * string)) (children : list node).

(** A node of a selection is known by its position in the document, the
    child indices from the root down, so that a node reached through two
    ancestors is selected once. *)
Definition path : Type := list nat.
Definition selection : Type := list (path * node).

Fixpoint path_eqb (p q : path) : bool :=
  match p, q with
  | [], [] => true
  | i :: p', j :: q' => (i =? j)%nat && path_eqb p' q'
  | _, _ => false
  end.

(** The text content of a node: its text descendants in document order. *)
Fixpoint text_of (n : node) : string :=
  match n with
  | Text data => data
  | Element _ _ children => Js.join EmptyString (List.map text_of children)
  end.

(** The two forms of simple selector the server writes: [h1] and
    [.md-content]. *)
Inductive simple : Type :=
  | Tag (name : string)
  | Class (name : string).

Definition has_class (c : string) (attribs : list (string * string)) : bool :=
  match JsObject.own attribs "class" with
  | Some v => existsb (String.eqb c) (String.words v)
  | None => false
  end.

Definition matches (s : simple) (n : node) : bool :=
  match n, s with
  | Element tag _ _, Tag name => String.eqb tag name
  | Element _ attribs _, Class name => has_class name attribs
  | Text _, _ => false
  end.

(** One step down the tree for a selector [s1 s2 ... sn] of descendant
    combinators.  [scoped] says that an ancestor lies in the context;
    [remaining] is the part of the selector the ancestors below the scope
    have not matched yet.  A node is selected when only the last simple
    selector remains and the node matches it. *)
Definition advance (scoped : bool) (remaining : list simple) (n : node) : list simple :=
  match remaining with
  | s :: (_ :: _) as rest => if scoped && matches s n then rest else remaining
  | _ => remaining
  end.

Definition selected (scoped : bool) (remaining : list simple) (n : node) : bool :=
  match remaining with
  | [s] => scoped && matches s n
  | _ => false
  end.

Fixpoint walk (context : list path) (scoped : bool) (remaining : list simple)
    (p : path) (n : node) : selection :=
  match n with
  | Text _ => []
  | Element _ _ children =>
      let scoped' := scoped || existsb (path_eqb p) context in
      let remaining' := advance scoped remaining n in
      (if selected scoped remaining n then [(p, n)] else [])
      ++ (fix walk_children (i : nat) (cs : list node) : selection :=
            match cs with
            | [] => []
            | c :: cs' =>
                walk context scoped' remaining' (p ++ [i]) c
                ++ walk_children (S i) cs'
            end) 0%nat children
  end.

Fixpoint walk_forest (context : list path) (scoped : bool) (remaining : list simple)
    (p : path) (i : nat) (ns : list node) : selection :=
  match ns with
  | [] => []
  | n :: ns' =>
      walk context scoped remaining (p ++ [i]) n
      ++ walk_forest context scoped remaining p (S i) ns'
  end.

(** [$(selector)]: every element of the document matching the selector,
    in document order. *)
Definition select (doc : list node) (selector : list simple) : selection :=
  walk_forest [] true selector [] 0 doc.

(** [sel.find(selector)]: the matching elements below an element of
    [sel], in document order, each once. *)
Definition find (doc : list node) (sel : selection) (selector : list simple) : selection :=
  walk_forest (List.map fst sel) false selector [] 0 doc.

(** [sel.first()] and [sel.eq(i)]. *)
Definition first (sel : selection) : selection := take 1 sel.

Definition eq (i : nat) (sel : selection) : selection :=
  match sel !! i with
  | Some x => [x]
  | None => []
  end.

(** [sel.text()]: the text of every element of the selection. *)
Definition text (sel : selection) : string :=
  Js.join EmptyString (List.map (fun x => text_of (snd x)) sel).

End Cheerio.

(** ** A reference parser and serializer

    The server takes both from cheerio and the development keeps them
    abstract.  The functions below cover well-formed markup whose tags
    are closed explicitly and whose attribute values hold no blank; they
    instantiate the abstract parser where a statement is run on a
    concrete page. *)

Module SimpleHtml.

Import Cheerio.

Inductive token : Type :=
  | TText (data : string)
  | TOpen (tag : string) (attribs : list (string * string))
  | TClose (tag : string).

Definition strip_quotes (s : string) : string :=
  match s with
  | String c s' =>
      if Ascii.eqb c Js.dquote then
        String.rev (match String.rev s' with
                    | String c' r => if Ascii.eqb c' Js.dquote then r else String c' r
                    | EmptyString => EmptyString
                    end)
      else s
  | EmptyString => EmptyString
  end.

Definition attribute (s : string) : string * string :=
  match Js.split "="%char s with
  | [k] => (k, EmptyString)
  | k :: vs => (k, strip_quotes (Js.join "=" vs))
  | [] => (s, EmptyString)
  end.

(** The token for the text between [<] and [>]. *)
Definition tag_token (s : string) : token :=
  match s with
  | String c s' =>
      if Ascii.eqb c Js.slash then TClose s'
      else match String.words s with
           | tag :: attrs => TOpen tag (List.map attribute attrs)
           | [] => TOpen s []
           end
  | EmptyString => TOpen EmptyString []
  end.

Definition text_token (buf : string) : list token :=
  match buf with
  | EmptyString => []
  | _ => [TText (String.rev buf)]
  end.

(** [in_tag] says the scan is between [<] and [>]; [buf] holds the
    characters read since the last delimiter, last one first. *)
Fixpoint tokens (in_tag : bool) (buf : string) (s : string) : list token :=
  match s with
  | EmptyString => if in_tag then [] else text_token buf
  | String c s' =>
      if in_tag then
        if Ascii.eqb c ">"%char then tag_token (String.rev buf) :: tokens false EmptyString s'
        else tokens true (String c buf) s'
      else
        if Ascii.eqb c "<"%char then text_token buf ++ tokens true EmptyString s'
        else tokens false (String c buf) s'
  end.

(** An open element: its tag, its attributes, and the children read so
    far, last one first. *)
Definition frame : Type := string * list (string * string) * list node.

Definition close_frame (f : frame) : node :=
  match f with
  | (tag, attribs, children) => Element tag attribs (rev children)
  end.

Definition add_child (n : node) (done : list node) (stack : list frame)
  : list node * list frame :=
  match stack with
  | [] => (n :: done, [])
  | (tag, attribs, children) :: stack' => (done, (tag, attribs, n :: children) :: stack')
  end.

(** The elements still open at the end of the input are closed from the
    innermost one outwards; [pending] is the element closed last. *)
Fixpoint unwind (stack : list frame) (pending : list node) : list node :=
  match stack with
  | [] => pending
  | (tag, attribs, children) :: stack' =>
      unwind stack' [Element tag attribs (rev (pending ++ children))]
  end.

Fixpoint build (ts : list token) (done : list node) (stack : list frame) : list node :=
  match ts with
  | [] => rev (unwind stack [] ++ done)
  | TText data :: ts' =>
      let '(done', stack') := add_child (Text data) done stack in
      build ts' done' stack'
  | TOpen tag attribs :: ts' => build ts' done ((tag, attribs, []) :: stack)
  | TClose _ :: ts' =>
      match stack with
      | [] => build ts' done []
      | f :: stack' =>
          let '(done', stack'') := add_child (close_frame f) done stack' in
          build ts' done' stack''
      end
  end.

Definition parse_fragment (s : string) : list node :=
  build (tokens false EmptyString s) [] [].

(** [cheerio.load] wraps the fragment in a document. *)
Definition load (s : string) : list node :=
  [Element "html" [] [Element "head" [] []; Element "body" [] (parse_fragment s)]].

Definition render_attribute (kv : string * string) : string :=
  " " +:+ fst kv +:+ "=" +:+ String Js.dquote (snd kv +:+ String Js.dquote EmptyString).

Fixpoint render_node (n : node) : string :=
  match n with
  | Text data => data
  | Element tag attribs children =>
      "<" +:+ tag +:+ Js.join EmptyString (List.map render_attribute attribs) +:+ ">"
      +:+ Js.join EmptyString (List.map render_node children)
      +:+ "</" +:+ tag +:+ ">"
  end.

Definition render (ns : list node) : string :=
  Js.join EmptyString (List.map render_node ns).

End SimpleHtml.


(** ** The server *)

Module Server.

Import Cheerio.

Inductive ErrorCode : Type := InvalidParams | MethodNotFound | InternalError.

(** What a [throw] carries: an [McpError], or an error raised by the
    runtime or by the HTTP client. *)
Inductive error : Type :=
  | McpError (code : ErrorCode) (message : string)
  | TypeError (message : string)
  | AxiosError (message : string).

Record Param : Type := {
  param_name : string;
  param_description : string;
  param_required : bool
}.

Record ApiDoc : Type := {
  title : string;
  description : string;
  parameters : list Param;
  examples : list string
}.

(** The effects of the server on its surroundings, in the order they
    happen. *)
Inductive event : Type :=
  | HttpGet (url : string) (headers : list (string * string))
  | ConsoleError (line : string) (err : option error).

(** The fields of a [MarimoDocs] instance that can change, and the
    events so far. *)
Record state : Type := {
  cache : gmap string ApiDoc;
  lastFetch : option Z;
  trace : list event
}.

Definition cacheDuration : Z := 1000 * 60 * 60.

Definition initial : state := {| cache := ∅; lastFetch := None; trace := [] |}.

(** The two revisions of [src/index.ts] the repository holds.  They
    differ in the endpoint table, the base URL, the message for an
    unknown element and the clean-up of the URL. *)
Inductive revision : Type := AllSections | InputsOnly.

(** *** Computations that read and extend the state and may throw *)

Definition io (A : Type) : Type := state -> (error + A) * state.

Definition ret {A} (a : A) : io A := fun s => (inr a, s).

Definition throw {A} (e : error) : io A := fun s => (inl e, s).

Definition bind {A B} (m : io A) (k : A -> io B) : io B :=
  fun s =>
    match m s with
    | (inr a, s') => k a s'
    | (inl e, s') => (inl e, s')
    end.

(** [try { body } catch (error) { handler }]. *)
Definition try_catch {A} (body : io A) (handler : error -> io A) : io A :=
  fun s =>
    match body s with
    | (inl e, s') => handler e s'
    | (inr a, s') => (inr a, s')
    end.

(** The state after further events. *)
Definition extend (s : state) (es : list event) : state :=
  {| cache := cache s; lastFetch := lastFetch s; trace := trace s ++ es |}.

Definition emit (e : event) : io unit := fun s => (inr tt, extend s [e]).

Notation "x <- m ;; k" := (bind m (fun x => k))
  (at level 100, m at next level, right associativity).
Notation "m ;;; k" := (bind m (fun _ => k))
  (at level 100, right associativity).

(** *** Values read from the endpoint table *)

Definition truthy (v : JsObject.value string) : bool :=
  match v with
  | JsObject.Own s => Js.truthy_string s
  | JsObject.Inherited _ => true
  | JsObject.Undefined => false
  end.

(** The text a template literal inserts for the value. *)
Definition to_string (v : JsObject.value string) : string :=
  match v with
  | JsObject.Own s => s
  | JsObject.Inherited k =>
      if String.eqb k "__proto__" then "[object Object]"
      else if String.eqb k "constructor" then "function Object() { [native code] }"
      else "function " +:+ k +:+ "() { [native code] }"
  | JsObject.Undefined => "undefined"
  end.

(** *** The message for an unknown element *)

(** [path.split('/')[1] || 'other'] *)
Definition section_of (path : string) : string :=
  match Js.split Js.slash path !! 1%nat with
  | Some segment => Js.or_else segment "other"
  | None => "other"
  end.

(** One round of the [forEach] that fills [elementsBySection].  A section
    named like a member of [Object.prototype] reads as that member, which
    is truthy and has no [push]. *)
Definition group_step (acc : error + JsObject.obj (list string)) (entry : string * string)
  : error + JsObject.obj (list string) :=
  match acc with
  | inl e => inl e
  | inr elementsBySection =>
      let section := section_of (snd entry) in
      match JsObject.get elementsBySection section with
      | JsObject.Undefined => inr (JsObject.set elementsBySection section [fst entry])
      | JsObject.Own elements =>
          inr (JsObject.set elementsBySection section (elements ++ [fst entry]))
      | JsObject.Inherited _ =>
          inl (TypeError "elementsBySection[section].push is not a function")
      end
  end.

Definition group_by_section (endpoints : JsObject.obj string)
  : error + JsObject.obj (list string) :=
  fold_left group_step (JsObject.entries endpoints) (inr []).

Definition format_section (entry : string * list string) : string :=
  fst entry +:+ ": " +:+ Js.join ", " (snd entry).

Definition availableElements (elementsBySection : JsObject.obj (list string)) : string :=
  Js.join Json.newline (List.map format_section (JsObject.entries elementsBySection)).

Definition unknown_element (rev : revision) (endpoints : JsObject.obj string)
    (element : string) : error :=
  match rev with
  | AllSections =>
      match group_by_section endpoints with
      | inl e => e
      | inr elementsBySection =>
          McpError InvalidParams
            ("Unknown element: " +:+ element +:+ Json.newline +:+ Json.newline
             +:+ "Available elements by section:" +:+ Json.newline
             +:+ availableElements elementsBySection)
      end
  | InputsOnly =>
      McpError InvalidParams
        ("Unknown element: " +:+ element +:+ ". Available elements: "
         +:+ Js.join ", " (JsObject.keys endpoints))
  end.

(** *** The serialized form of a record *)

Definition json_of_parameter (p : Param) : Json.json :=
  Json.JObject
    [ ("name", Json.JString (param_name p));
      ("description", Json.JString (param_description p));
      ("required", Json.JBool (param_required p)) ].

Definition json_of_doc (doc : ApiDoc) : Json.json :=
  Json.JObject
    [ ("title", Json.JString (title doc));
      ("description", Json.JString (description doc));
      ("parameters", Json.JArray (List.map json_of_parameter (parameters doc)));
      ("examples", Json.JArray (List.map Json.JString (examples doc))) ].

Definition request_headers : list (string * string) :=
  [ ("Accept", "text/html,application/xhtml+xml,application/xml;q=0.9,image/webp,*/*;q=0.8");
    ("User-Agent", "Mozilla/5.0 (Macintosh; Intel Mac OS X 10_15_7) AppleWebKit/537.36");
    ("Accept-Language", "en-US,en;q=0.5") ].

(** The URLs of the GET requests of a trace, in the order they went out. *)
Fixpoint gets (t : list event) : list string :=
  match t with
  | [] => []
  | HttpGet url _ :: t' => url :: gets t'
  | ConsoleError _ _ :: t' => gets t'
  end.

Definition set_cache (c : gmap string ApiDoc) (s : state) : state :=
  {| cache := c; lastFetch := lastFetch s; trace := trace s |}.

Section Operations.

(** [String.prototype.toLowerCase]. *)
Variable toLowerCase : string -> string.

(** [cheerio.load] and the serializer behind [html()]. *)
Variable load : string -> list node.
Variable render : list node -> string.

(** The origin: what a GET of a URL answers after the events so far, the
    response body or the error the client rejects with. *)
Variable origin : list event -> string -> error + string.

Variable rev : revision.
Variable baseUrl : string.
Variable endpoints : JsObject.obj string.

(** [sel.html()]: the inner markup of the first element, [null] for an
    empty selection. *)
Definition html (sel : selection) : option string :=
  match sel with
  | (_, Element _ _ children) :: _ => Some (render children)
  | (_, Text _) :: _ => None
  | [] => None
  end.

(** The body of the [each] callback of [parseParameters] for one row of
    the document [doc]. *)
Definition parse_row (doc : list node) (row : path * node) : list Param :=
  let cells := find doc [row] [Tag "td"] in
  if (2 <=? length cells)%nat then
    [ {| param_name := Js.trim (text (eq 0 cells));
         param_description := Js.trim (text (eq 1 cells));
         param_required := Js.includes (text (eq 2 cells)) "required" || false |} ]
  else [].

Definition parseParameters (section : selection) : list Param :=
  let doc := load (Js.or_else (default EmptyString (html section)) EmptyString) in
  flat_map (parse_row doc) (select doc [Tag "tr"]).

Definition trimmed_texts (sel : selection) : list string :=
  List.filter (fun text => (0 <? String.length text)%nat)
    (List.map (fun el => Js.trim (text_of (snd el))) sel).

(** The extraction of the record from the response body, the second half
    of the [try] block of [fetchDoc]. *)
Definition extract (data : string) : ApiDoc :=
  let doc := load data in
  let content := select doc [Class "md-content"] in
  let title := Js.trim (text (first (find doc content [Tag "h1"]))) in
  let descriptions := trimmed_texts (find doc content [Tag "p"]) in
  let description := Js.join (Json.newline +:+ Json.newline) descriptions in
  let docSection := first (find doc content [Class "doc-children"]) in
  let parameters :=
    if (0 <? length docSection)%nat then parseParameters docSection else [] in
  let exampleElements := find doc content [Tag "pre"; Tag "code"] in
  let examples := trimmed_texts exampleElements in
  {| title := title; description := description;
     parameters := parameters; examples := examples |}.

(** [axios.get(url, { headers })] *)
Definition axios_get (url : string) : io string :=
  fun s => (origin (trace s) url, extend s [HttpGet url request_headers]).

Definition request_url (endpoint : JsObject.value string) : string :=
  match rev with
  | AllSections => Js.replace_dup_slashes (baseUrl +:+ to_string endpoint)
  | InputsOnly => baseUrl +:+ to_string endpoint
  end.

Definition fetchDoc (element : string) : io ApiDoc :=
  let endpoint := JsObject.get endpoints element in
  if negb (truthy endpoint) then throw (unknown_element rev endpoints element)
  else
    try_catch
      (emit (ConsoleError ("Fetching documentation for " +:+ element +:+ "...") None) ;;;
       data <- axios_get (request_url endpoint) ;;
       if negb (Js.truthy_string data)
       then throw (McpError InternalError "Empty response from Marimo docs")
       else ret (extract data))
      (fun error =>
         emit (ConsoleError ("Error fetching documentation for " +:+ element +:+ ":")
                 (Some error)) ;;;
         throw (McpError InternalError ("Failed to fetch documentation for " +:+ element))).

(** Whether the serialized record holds the query, letter case aside. *)
Definition matches_query (query : string) (doc : ApiDoc) : bool :=
  Js.includes (toLowerCase (Json.stringify (json_of_doc doc))) (toLowerCase query).

(** The [for ... of] loop of [searchDocs] over the elements left. *)
Fixpoint search_loop (query : string) (elements : list string) (results : list ApiDoc)
  : io (list ApiDoc) :=
  match elements with
  | [] => ret results
  | element :: rest =>
      results' <-
        try_catch
          (doc <- fetchDoc element ;;
           if matches_query query doc then ret (results ++ [doc]) else ret results)
          (fun error =>
             emit (ConsoleError ("Error searching " +:+ element +:+ ":") (Some error)) ;;;
             ret results) ;;
      search_loop query rest results'
  end.

Definition searchDocs (query : string) : io (list ApiDoc) :=
  search_loop query (JsObject.keys endpoints) [].

(** *** The handler of [CallToolRequestSchema] *)

Record request : Type := {
  name : string;
  arguments : option (JsObject.obj string)
}.

Inductive content_item : Type := TextContent (text : string).

Definition call_tool (req : request) : io (list content_item) :=
  match arguments req with
  | None => throw (McpError InvalidParams "Missing arguments")
  | Some args =>
      if String.eqb (name req) "get_element_api" then
        let element := JsObject.get args "element" in
        if negb (truthy element)
        then throw (McpError InvalidParams "Missing element parameter")
        else
          doc <- fetchDoc (to_string element) ;;
          ret [TextContent (Json.stringify_pretty (json_of_doc doc))]
      else if String.eqb (name req) "search_api" then
        let query := JsObject.get args "query" in
        if negb (truthy query)
        then throw (McpError InvalidParams "Missing query parameter")
        else
          results <- searchDocs (to_string query) ;;
          ret [TextContent
                 (Json.stringify_pretty (Json.JArray (List.map json_of_doc results)))]
      else throw (McpError MethodNotFound ("Unknown tool: " +:+ name req))
  end.

(** *** Runs of the server *)

(** The events of one [fetchDoc] and the error that leaves its [catch]. *)
Definition fetching (element : string) : event :=
  ConsoleError ("Fetching documentation for " +:+ element +:+ "...") None.

Definition get_of (element : string) : event :=
  HttpGet (request_url (JsObject.get endpoints element)) request_headers.

Definition fetch_error (element : string) (e : error) : event :=
  ConsoleError ("Error fetching documentation for " +:+ element +:+ ":") (Some e).

Definition failed_to_fetch (element : string) : error :=
  McpError InternalError ("Failed to fetch documentation for " +:+ element).

(** What the origin answers to the GET that [fetchDoc element] sends in
    the state [s]. *)
Definition response (element : string) (s : state) : error + string :=
  origin (trace s ++ [fetching element]) (request_url (JsObject.get endpoints element)).

(** The table has no key that [Object.keys] would move to the front. *)
Definition plain_keys : bool :=
  forallb (fun kv => negb (JsObject.is_array_index (fst kv))) endpoints.

(** The outcome of [fetchDoc] for each element in turn, a failure being
    logged the way the loop of [searchDocs] logs it. *)
Fixpoint fetch_each (elements : list string) (s : state)
  : list (error + ApiDoc) * state :=
  match elements with
  | [] => ([], s)
  | element :: rest =>
      let (r, s1) := fetchDoc element s in
      let s2 :=
        match r with
        | inl error =>
            snd (emit (ConsoleError ("Error searching " +:+ element +:+ ":") (Some error)) s1)
        | inr _ => s1
        end in
      let (rs, s3) := fetch_each rest s2 in
      (r :: rs, s3)
  end.

(** The records among the outcomes. *)
Definition fetched (outcomes : list (error + ApiDoc)) : list ApiDoc :=
  omap (fun r => match r with inr doc => Some doc | inl _ => None end) outcomes.

(** The ways into the server: the two operations and the handler of
    tool calls. *)
Inductive invocation : Type :=
  | Fetch (element : string)
  | Search (query : string)
  | Call (req : request).

Definition invoke (i : invocation) (s : state) : state :=
  match i with
  | Fetch element => snd (fetchDoc element s)
  | Search query => snd (searchDocs query s)
  | Call req => snd (call_tool req s)
  end.

Definition invoke_all (calls : list invocation) (s : state) : state :=
  fold_left (fun s i => invoke i s) calls s.

End Operations.

(** A revision of the program: the constants of its [MarimoDocs] class. *)
Record program : Type := {
  program_revision : revision;
  program_baseUrl : string;
  program_endpoints : JsObject.obj string
}.

End Server.

(** ** What the specification asks for

    Definitions written from the words of the specification, for the
    program to be compared with. *)

Module Spec.

(** *** The clean-up of the URL

    The specification asks that any run of repeated slashes that is not
    part of the scheme separator be collapsed to one slash.  Read
    character by character: a slash that follows a slash is dropped,
    unless it is the second slash of a colon and two slashes. *)

Definition is_char (c : ascii) (o : option ascii) : bool :=
  match o with
  | Some c' => Ascii.eqb c' c
  | None => false
  end.

(** [prev2] and [prev1] are the two characters read before [s]. *)
Fixpoint collapse_from (prev2 prev1 : option ascii) (s : string) : string :=
  match s with
  | EmptyString => EmptyString
  | String c t =>
      let rest := collapse_from prev1 (Some c) t in
      if Ascii.eqb c Js.slash && is_char Js.slash prev1 && negb (is_char Js.colon prev2)
      then rest
      else String c rest
  end.

Definition collapse_slashes (s : string) : string := collapse_from None None s.

(** The two characters before [s] allow the scan of the replacement to
    stand at [s]: a double slash at the head of [s] follows a colon, and
    a slash at the head of [s] that follows a slash is the second slash
    of a scheme separator. *)
Definition scan_position (prev2 prev1 : option ascii) (s : string) : Prop :=
  (is_char Js.colon prev1 = false -> Js.startsWith s "//" = false) /\
  (is_char Js.slash prev1 = true -> Js.startsWith s "/" = true ->
   is_char Js.colon prev2 = true).

(** *** The grouping of the names by section

    The specification asks that the message for an unknown element list
    every known name, grouped by section, the sections and the names
    within a section in the order of the table. *)

(** The sections of a table, each where it occurs first. *)
Definition sections (endpoints : JsObject.obj string) : list string :=
  fold_left
    (fun seen kv =>
       if decide (Server.section_of (snd kv) ∈ seen) then seen
       else seen ++ [Server.section_of (snd kv)])
    endpoints [].

(** The names of a section, in table order. *)
Definition names_in (endpoints : JsObject.obj string) (section : string) : list string :=
  List.map fst
    (List.filter (fun kv => String.eqb (Server.section_of (snd kv)) section) endpoints).

Definition grouped (endpoints : JsObject.obj string) : JsObject.obj (list string) :=
  List.map (fun section => (section, names_in endpoints section)) (sections endpoints).

(** No key of the table and no section is an array index, which
    [Object.entries] would move to the front, and no section is named
    like a member of [Object.prototype]. *)
Definition groupable (endpoints : JsObject.obj string) : bool :=
  forallb
    (fun kv =>
       negb (JsObject.is_array_index (fst kv))
       && negb (JsObject.is_array_index (Server.section_of (snd kv)))
       && negb (JsObject.inherited (Server.section_of (snd kv))))
    endpoints.

(** What the proofs need of a row of an endpoint table: a path that is
    truthy, a URL that does not open with two slashes, and nothing left
    to collapse in it. *)
Definition row_ok (baseUrl : string) (kv : string * string) : bool :=
  Js.truthy_string (snd kv)
  && negb (Js.startsWith (baseUrl +:+ snd kv) "//")
  && String.eqb (collapse_slashes (baseUrl +:+ snd kv)) (baseUrl +:+ snd kv).

(** *** The test of a record against the query

    The specification asks for the records whose serialized text holds
    the query as a substring, letter case aside. *)

(** [needle] is a substring of [s]. *)
Definition occurs (needle s : string) : Prop :=
  exists before after, s = before +:+ needle +:+ after.





(** *** The rows of a parameter table

    The specification asks that a row of two cells or more give a
    parameter, named by the first cell and described by the second,
    required exactly when a third cell holds the word required, and that
    a row of fewer cells give none. *)

(** The row with the cell texts [cells] gives the parameter [p]. *)
Definition row_gives (cells : list string) (p : Server.Param) : Prop :=
  exists name description others,
    cells = name :: description :: others
    /\ Server.param_name p = Js.trim name
    /\ Server.param_description p = Js.trim description
    /\ (Server.param_required p = true
        <-> exists third, head others = Some third /\ occurs "required" third).

End Spec.

(** ** The two revisions of the program *)

(** The revision with every documentation section. *)
Module MarimoDocs.

Definition baseUrl : string := "https://docs.marimo.io/api".

Definition endpoints : JsObject.obj string :=
  [ ("array", "/inputs/array/");
    ("anywidget", "/inputs/anywidget/");
    ("batch", "/inputs/batch/");
    ("button", "/inputs/button/");
    ("chat", "/inputs/chat/");
    ("checkbox", "/inputs/checkbox/");
    ("code_editor", "/inputs/code_editor/");
    ("data_explorer", "/inputs/data_explorer/");
    ("dataframe", "/inputs/dataframe/");
    ("dates", "/inputs/dates/");
    ("dictionary", "/inputs/dictionary/");
    ("dropdown", "/inputs/dropdown/");
    ("file", "/inputs/file/");
    ("file_browser", "/inputs/file_browser/");
    ("form", "/inputs/form/");
    ("microphone", "/inputs/microphone/");
    ("multiselect", "/inputs/multiselect/");
    ("nav_menu", "/inputs/nav_menu/");
    ("number", "/inputs/number/");
    ("radio", "/inputs/radio/");
    ("range_slider", "/inputs/range_slider/");
    ("refresh", "/inputs/refresh/");
    ("run_button", "/inputs/run_button/");
    ("slider", "/inputs/slider/");
    ("switch", "/inputs/switch/");
    ("table", "/inputs/table/");
    ("tabs", "/inputs/tabs/");
    ("text", "/inputs/text/");
    ("text_area", "/inputs/text_area/");
    ("accordion", "/layouts/accordion/");
    ("callout", "/layouts/callout/");
    ("carousel", "/layouts/carousel/");
    ("justify", "/layouts/justify/");
    ("lazy", "/layouts/lazy/");
    ("plain", "/layouts/plain/");
    ("routes", "/layouts/routes/");
    ("sidebar", "/layouts/sidebar/");
    ("stacks", "/layouts/stacks/");
    ("tree", "/layouts/tree/");
    ("audio", "/media/audio/");
    ("download", "/media/download/");
    ("image", "/media/image/");
    ("pdf", "/media/pdf/");
    ("plain_text", "/media/plain_text/");
    ("video", "/media/video/");
    ("markdown", "/markdown/");
    ("control_flow", "/control_flow/");
    ("plotting", "/plotting/");
    ("status", "/status/");
    ("outputs", "/outputs/");
    ("diagrams", "/diagrams/");
    ("html", "/html/");
    ("query_params", "/query_params/");
    ("cli_args", "/cli_args/");
    ("caching", "/caching/");
    ("state", "/state/");
    ("app", "/app/");
    ("cell", "/cell/");
    ("miscellaneous", "/miscellaneous/") ].

Definition revision : Server.revision := Server.AllSections.

Definition program : Server.program :=
  {| Server.program_revision := revision;
     Server.program_baseUrl := baseUrl;
     Server.program_endpoints := endpoints |}.

End MarimoDocs.

(** The revision with the input elements only. *)
Module MarimoDocsInputs.

Definition baseUrl : string := "https://docs.marimo.io/api/inputs".

Definition endpoints : JsObject.obj string :=
  [ ("slider", "/range_slider/");
    ("button", "/button/");
    ("checkbox", "/checkbox/");
    ("dropdown", "/dropdown/");
    ("text", "/text/");
    ("number", "/number/");
    ("array", "/array/");
    ("multiselect", "/multiselect/");
    ("radio", "/radio/");
    ("switch", "/switch/");
    ("date", "/date/");
    ("time", "/time/");
    ("file", "/file/") ].

Definition revision : Server.revision := Server.InputsOnly.

Definition program : Server.program :=
  {| Server.program_revision := revision;
     Server.program_baseUrl := baseUrl;
     Server.program_endpoints := endpoints |}.

End MarimoDocsInputs.

(** Both revisions. *)
Definition revisions : list Server.program :=
  [MarimoDocs.program; MarimoDocsInputs.program].



(** ** The scenario of the specification

    One endpoint, a short base URL, and a page the origin serves. *)

Module Scenario.

Import Cheerio.

Definition baseUrl : string := "https://x/api".

Definition endpoints : JsObject.obj string := [("slider", "/inputs/slider/")].

(** The page, a [div] of class [md-content] around a heading and a
    paragraph. *)
Definition page : string :=
  "<div class=" +:+ String Js.dquote ("md-content" +:+ String Js.dquote
    "><h1>Slider</h1><p>A slider.</p></div>").

(** The document cheerio builds for the page. *)
Definition document : list node :=
  [ Element "html" []
      [ Element "head" [] [];
        Element "body" []
          [ Element "div" [("class", "md-content")]
              [ Element "h1" [] [Text "Slider"];
                Element "p" [] [Text "A slider."] ] ] ] ].

End Scenario.

(** ** Origins and pages to run the server on *)

Module Examples.

Import Cheerio Server.

(** An origin that refuses every connection. *)
Definition refused : list event -> string -> error + string :=
  fun _ _ => inl (AxiosError "connect ECONNREFUSED").

(** An origin that serves the same page at every URL. *)
Definition serving (page : string) : list event -> string -> error + string :=
  fun _ _ => inr page.

(** An origin that serves a page at one URL and refuses the others. *)
Definition only_at (url page : string) : list event -> string -> error + string :=
  fun _ requested =>
    if String.eqb requested url then inr page
    else inl (AxiosError "Request failed with status code 404").

(** A table of three rows, of two, three and one cell. *)
Definition table_page : string :=
  "<table><tr><td>n</td><td>d</td></tr>"
  +:+ "<tr><td>n</td><td>d</td><td>required</td></tr>"
  +:+ "<tr><td>n</td></tr></table>".

(** The block of class [doc-children] around that table, as the
    extractor hands it to [parseParameters]. *)
Definition table_section : selection :=
  let doc := SimpleHtml.load ("<div class=doc-children>" +:+ table_page +:+ "</div>") in
  first (select doc [Class "doc-children"]).

(** A page without the content container. *)
Definition bare_page : string := "<p>Nothing here.</p>".

(** Requests to the dispatcher. *)
Definition no_arguments : request := {| name := "get_element_api"; arguments := None |}.
Definition no_element : request := {| name := "get_element_api"; arguments := Some [] |}.
Definition unknown_tool : request :=
  {| name := "unknown_tool"; arguments := Some [("element", "slider")] |}.
Definition unknown_tool_bare : request := {| name := "unknown_tool"; arguments := None |}.
Definition empty_element : request :=
  {| name := "get_element_api"; arguments := Some [("element", EmptyString)] |}.
Definition empty_query : request :=
  {| name := "search_api"; arguments := Some [("query", EmptyString)] |}.

End Examples.


(** ** The tools the server lists

    The handler of [ListToolsRequestSchema] answers every request with
    the same two descriptors. *)

Module Tools.

Record property : Type := {
  property_type : string;
  property_description : string
}.

Record schema : Type := {
  schema_type : string;
  schema_properties : JsObject.obj property;
  schema_required : list string
}.

Record tool : Type := {
  tool_name : string;
  tool_description : string;
  inputSchema : schema
}.

Definition get_element_api : tool :=
  {| tool_name := "get_element_api";
     tool_description := "Get API documentation for a specific UI element";
     inputSchema :=
       {| schema_type := "object";
          schema_properties :=
            [ ("element",
               {| property_type := "string";
                  property_description :=
                    "The UI element to get documentation for (e.g., "
                    +:+ String Js.dquote ("slider" +:+ String Js.dquote ")") |}) ];
          schema_required := ["element"] |} |}.

Definition search_api : tool :=
  {| tool_name := "search_api";
     tool_description := "Search API documentation";
     inputSchema :=
       {| schema_type := "object";
          schema_properties :=
            [ ("query",
               {| property_type := "string";
                  property_description := "Search query" |}) ];
          schema_required := ["query"] |} |}.

Definition list_tools : list tool := [get_element_api; search_api].

End Tools.

(** ** Predicates on strings, to state what the operations keep *)

Module Chars.

(** Some character of the string satisfies [f]. *)
Fixpoint some_char (f : ascii -> bool) (s : string) : bool :=
  match s with
  | EmptyString => false
  | String c s' => f c || some_char f s'
  end.

(** The control characters, which [JSON.stringify] writes as escapes. *)
Definition control (c : ascii) : bool := (nat_of_ascii c <? 32)%nat.

(** The string without its slashes. *)
Fixpoint without_slashes (s : string) : string :=
  match s with
  | EmptyString => EmptyString
  | String c s' =>
      if Ascii.eqb c Js.slash then without_slashes s' else String c (without_slashes s')
  end.

(** Nowhere in the string does the pattern of the replacement match: no
    character other than a colon is followed by two slashes. *)
Fixpoint settled (s : string) : bool :=
  match s with
  | EmptyString => true
  | String c t =>
      negb (negb (Ascii.eqb c Js.colon) && Js.startsWith t "//") && settled t
  end.

(** [w] is the tail of [s]. *)
Fixpoint ends_with (s w : string) : bool :=
  String.eqb s w
  || match s with
     | EmptyString => false
     | String _ s' => ends_with s' w
     end.

(** The string has no white space at its head and none at its end. *)
Definition bare (s : string) : bool :=
  forallb (fun w => negb (Js.startsWith s w) && negb (ends_with s w)) Js.white_space.

(** The string is of the ASCII range. *)
Definition ascii_only (s : string) : bool :=
  negb (some_char (fun c => (127 <? nat_of_ascii c)%nat) s).

(** How the serialized form of every record opens: a brace and the
    key of the title, up to the quote that opens the title. *)
Definition record_opening : string :=
  "{" +:+ String Js.dquote ("title" +:+ String Js.dquote (":" +:+ String Js.dquote EmptyString)).

End Chars.

(** ** What the development takes of [toLowerCase]

    The case tables grow with the versions of Unicode.  Three facts
    hold of every version, and a statement that needs one says so. *)

Module Casing.


(** An ASCII head of a string is folded as it stands, whatever follows
    it. *)
Definition folds_ascii_head (toLowerCase : string -> string) : Prop :=
  forall head rest,
    Chars.ascii_only head = true ->
    Js.startsWith (toLowerCase (head +:+ rest)) (Js.lower_ascii head) = true.

(** No control character comes or goes. *)
Definition keeps_controls (toLowerCase : string -> string) : Prop :=
  forall s,
    Chars.some_char Chars.control (toLowerCase s) = Chars.some_char Chars.control s.

End Casing.

(** ** The table [parseParameters] reads *)

Module Rows.

Import Cheerio Server.

Section Rows.

Variable load : string -> list node.
Variable render : list node -> string.

(** The document [parseParameters] works on: the inner markup of the
    block, parsed again. *)
Definition reparsed (section : selection) : list node :=
  load (Js.or_else (default EmptyString (html render section)) EmptyString).

(** The rows of that document, and the texts of the cells of a row. *)
Definition rows (section : selection) : list (path * node) :=
  select (reparsed section) [Tag "tr"].

Definition cells (section : selection) (row : path * node) : list string :=
  List.map (fun cell => text_of (snd cell)) (find (reparsed section) [row] [Tag "td"]).

(** The table: the cell texts, row by row. *)
Definition table (section : selection) : list (list string) :=
  List.map (cells section) (rows section).

End Rows.

End Rows.

(** ** Predicates on runs and tables, to state what the server keeps *)

Module Kept.

Import Server.

(** The error of calling [push] on a member of [Object.prototype]. *)
Definition not_a_function : error :=
  TypeError "elementsBySection[section].push is not a function".

(** The groups built so far have no key that is a member name. *)
Definition own_sections (groups : JsObject.obj (list string)) : Prop :=
  forall k, JsObject.inherited k = true -> JsObject.own groups k = None.

(** The GETs among the events carry the headers of the server. *)
Definition browser_like (es : list event) : Prop :=
  Forall (fun e => match e with
                   | HttpGet _ headers => headers = request_headers
                   | ConsoleError _ _ => True
                   end) es.

(** The state [s'] is [s] after events of that kind, and nothing else
    has changed. *)
Definition appends (s s' : state) : Prop :=
  exists es, s' = extend s es /\ browser_like es.

(** The path of a name in the later table: the name between slashes,
    under its section or alone. *)
Definition named_after (kv : string * string) : bool :=
  String.eqb (snd kv) ("/" +:+ fst kv +:+ "/")
  || String.eqb (snd kv) ("/" +:+ section_of (snd kv) +:+ "/" +:+ fst kv +:+ "/").

(** A table with a path under /constructor/. *)
Definition odd_table : JsObject.obj string :=
  [("slider", "/inputs/slider/"); ("builder", "/constructor/builder/")].

End Kept.

(** * Properties *)

(** ** The string operations *)

Module JsFacts.
Import Js.

Lemma append_cons c s t : String c s +:+ t = String c (s +:+ t).
Proof. reflexivity. Qed.

Lemma startsWith_cons c s p prefix :
  startsWith (String c s) (String p prefix) = Ascii.eqb c p && startsWith s prefix.
Proof. reflexivity. Qed.

Lemma startsWith_refl s : startsWith s s = true.
Proof.
  induction s as [|c s IH]; simpl; [done|].
  by rewrite Ascii.eqb_refl, IH.
Qed.

Lemma includes_self s : includes s s = true.
Proof. destruct s; simpl; [done|]. by rewrite Ascii.eqb_refl, startsWith_refl. Qed.

Lemma includes_append_r prefix s needle :
  includes s needle = true -> includes (prefix +:+ s) needle = true.
Proof.
  intros H. induction prefix as [|c p IH]; [done|].
  rewrite append_cons. simpl. rewrite IH. apply orb_true_r.
Qed.

Lemma includes_suffix prefix s : includes (prefix +:+ s) s = true.
Proof. apply includes_append_r, includes_self. Qed.

Lemma startsWith_split s w : startsWith s w = true <-> exists rest, s = w +:+ rest.
Proof.
  revert s. induction w as [|c w IH]; intros s.
  - split; [by exists s|done].
  - destruct s as [|d s]; [split; [done|by intros [rest H]]|].
    rewrite JsFacts.startsWith_cons, andb_true_iff, IH. split.
    + intros [->%Ascii.eqb_eq [rest ->]]. by exists rest.
    + intros [rest [= -> ->]]. split; [apply Ascii.eqb_refl|by exists rest].
Qed.

(** [includes] finds the needle exactly where it is a substring. *)
Lemma includes_occurs s needle : includes s needle = true <-> Spec.occurs needle s.
Proof.
  split.
  - induction s as [|c s IH]; cbn [includes].
    + rewrite orb_false_r. intros [rest ->]%startsWith_split. by exists EmptyString, rest.
    + intros [[rest ->]%startsWith_split|H]%orb_true_iff; [by exists EmptyString, rest|].
      destruct (IH H) as (before & after & ->). by exists (String c before), after.
  - intros (before & after & ->). apply JsFacts.includes_append_r.
    assert (H : startsWith (needle +:+ after) needle = true)
      by (apply startsWith_split; by exists after).
    destruct (needle +:+ after); cbn [includes]; by rewrite H.
Qed.

End JsFacts.

(** ** The replacement of repeated slashes against its specification *)

Module UrlFacts.
Import Js Spec.

Lemma is_char_some c d : is_char c (Some d) = Ascii.eqb d c.
Proof. reflexivity. Qed.

Lemma replace_from_false c t :
  replace_dup_slashes_from false (String c t) =
  if negb (Ascii.eqb c colon) && startsWith t "//"
  then String c (String slash (replace_dup_slashes_from true t))
  else String c (replace_dup_slashes_from false t).
Proof.
  destruct t as [|c1 [|c2 u]]; cbn [replace_dup_slashes_from andb startsWith].
  - by rewrite andb_false_r.
  - by rewrite !andb_false_r.
  - rewrite andb_true_r, andb_assoc.
    destruct (negb (Ascii.eqb c colon) && Ascii.eqb c1 "/" && Ascii.eqb c2 "/") eqn:Hm;
      unfold slash; rewrite Hm; [|done].
    apply andb_true_iff in Hm as [Hm ->]. apply andb_true_iff in Hm as [_ ->]. done.
Qed.

Lemma replace_from_true c t :
  replace_dup_slashes_from true (String c t) =
  if Ascii.eqb c slash then replace_dup_slashes_from true t
  else replace_dup_slashes_from false (String c t).
Proof. cbn [replace_dup_slashes_from andb]. by destruct (Ascii.eqb c slash). Qed.

Lemma collapse_double_slash p2 p1 t :
  startsWith t "//" = true ->
  collapse_from p2 p1 t =
  (if is_char slash p1 && negb (is_char colon p2) then EmptyString else "/")
  +:+ (if is_char colon p1 then "/" else EmptyString)
  +:+ collapse_from (Some slash) (Some slash) t.
Proof.
  destruct t as [|c1 [|c2 u]]; cbn [startsWith]; try by rewrite ?andb_false_r.
  rewrite andb_true_r. intros [H1 H2]%andb_true_iff.
  apply Ascii.eqb_eq in H1, H2. subst c1 c2.
  cbn [collapse_from is_char]. change (Ascii.eqb "/" slash) with true.
  change (Ascii.eqb slash slash) with true. change (Ascii.eqb slash colon) with false.
  change (Ascii.eqb "/" colon) with false.
  cbn [andb negb].
  destruct (is_char slash p1 && negb (is_char colon p2)), (is_char colon p1); reflexivity.
Qed.

Lemma replace_collapse s :
  (forall p2 p1, scan_position p2 p1 s ->
     replace_dup_slashes_from false s = collapse_from p2 p1 s) /\
  replace_dup_slashes_from true s = collapse_from (Some slash) (Some slash) s.
Proof.
  induction s as [|c t [IHf IHt]]; [done|].
  assert (Hfalse : forall p2 p1, scan_position p2 p1 (String c t) ->
     replace_dup_slashes_from false (String c t) = collapse_from p2 p1 (String c t)).
  { intros p2 p1 [Hi Hii].
    rewrite replace_from_false. cbn [collapse_from].
    assert (Hkeep : Ascii.eqb c slash && is_char slash p1 && negb (is_char colon p2) = false).
    { destruct (Ascii.eqb_spec c slash) as [->|]; [|done].
      destruct (is_char slash p1) eqn:Hp1; [|done].
      simpl. by rewrite Hii by reflexivity. }
    rewrite Hkeep.
    assert (Hhead : Ascii.eqb c slash && startsWith t "/" = true -> is_char colon p1 = true).
    { intros Hs. destruct (is_char colon p1) eqn:Hp1; [done|].
      specialize (Hi eq_refl). rewrite JsFacts.startsWith_cons in Hi.
      unfold slash in Hs. congruence. }
    destruct (negb (Ascii.eqb c colon) && startsWith t "//") eqn:Hm.
    - apply andb_true_iff in Hm as [Hc Ht]. apply negb_true_iff in Hc.
      rewrite (collapse_double_slash _ _ _ Ht), !is_char_some, Hc, IHt.
      assert (Hk1 : Ascii.eqb c slash && negb (is_char colon p1) = false).
      { destruct (Ascii.eqb c slash) eqn:Hs; [|done]. simpl.
        rewrite Hhead; [done|]. simpl.
        destruct t as [|c1 t']; [done|]. rewrite JsFacts.startsWith_cons in Ht.
        apply andb_true_iff in Ht as [-> _]. done. }
      rewrite Hk1. reflexivity.
    - f_equal. apply IHf. split; rewrite is_char_some.
      + intros Hc. by rewrite Hc in Hm.
      + intros Hs Ht. apply Hhead. by rewrite Hs, Ht. }
  split; [exact Hfalse|].
  rewrite replace_from_true. cbn [collapse_from is_char].
  change (Ascii.eqb slash slash) with true. change (Ascii.eqb slash colon) with false.
  rewrite andb_true_r, andb_true_r.
  destruct (Ascii.eqb_spec c slash) as [->|Hc]; [exact IHt|].
  apply Ascii.eqb_neq in Hc.
  rewrite (Hfalse (Some slash) (Some slash)); [by cbn [collapse_from is_char]; rewrite Hc|].
  split; cbn [startsWith]; intros; unfold slash in Hc; rewrite Hc in *; done.
Qed.

(** A base URL that ends in a slash and a path that opens with one are
    joined by a single slash. *)
Example replace_dup_slashes_between :
  replace_dup_slashes ("https://x/api/" +:+ "/inputs/") = "https://x/api/inputs/".
Proof. reflexivity. Qed.

(** Two slashes at the very head of the string have no character
    before them for the pattern to start at, and stay. *)
Example replace_dup_slashes_head :
  replace_dup_slashes "//inputs//slider/" = "//inputs/slider/"
  /\ collapse_slashes "//inputs//slider/" = "/inputs/slider/".
Proof. split; reflexivity. Qed.

(** Off the head of the string the replacement does what the
    specification asks. *)
Lemma replace_dup_slashes_collapse s :
  startsWith s "//" = false -> replace_dup_slashes s = collapse_slashes s.
Proof.
  intros H. apply (proj1 (replace_collapse s)). by split.
Qed.

(** X2.  On a string that does not open with two slashes the regular
    expression of [fetchDoc] drops exactly the slashes the specification
    asks to drop: each slash that follows a slash, the second slash of a
    scheme separator apart. *)
Theorem replace_dup_slashes_meets_spec s :
  startsWith s "//" = false -> replace_dup_slashes s = collapse_slashes s.
Proof. apply replace_dup_slashes_collapse. Qed.

End UrlFacts.

(** ** Fetching, searching and dispatching *)

Module ServerFacts.
Import Cheerio Server.

Lemma extend_extend s es1 es2 : extend (extend s es1) es2 = extend s (es1 ++ es2).
Proof. unfold extend. simpl. by rewrite app_assoc. Qed.

Lemma gets_app t1 t2 : gets (t1 ++ t2) = gets t1 ++ gets t2.
Proof.
  induction t1 as [|[url h|line err] t1 IH]; simpl; [done| |done].
  by rewrite IH.
Qed.

Lemma own_elem_of {V} (o : JsObject.obj V) k v :
  JsObject.own o k = Some v -> (k, v) ∈ o.
Proof.
  induction o as [|[k' v'] o IH]; simpl; [done|].
  destruct (String.eqb_spec k' k) as [->|]; intros H.
  - injection H as ->. apply list_elem_of_here.
  - apply list_elem_of_further. auto.
Qed.

Lemma get_own (o : JsObject.obj string) k path :
  JsObject.own o k = Some path -> path <> EmptyString ->
  JsObject.get o k = JsObject.Own path /\ truthy (JsObject.get o k) = true.
Proof.
  intros H Hne. unfold JsObject.get. rewrite H. split; [done|].
  by destruct path.
Qed.

Lemma index_entries_plain {V} (o : JsObject.obj V) :
  forallb (fun kv => negb (JsObject.is_array_index (fst kv))) o = true ->
  JsObject.index_entries o = [].
Proof.
  induction o as [|kv o IH]; [done|]. cbn [forallb].
  intros [Hk Ho]%andb_true_iff. unfold JsObject.index_entries in *.
  cbn [fold_right]. rewrite (IH Ho).
  unfold JsObject.is_array_index in Hk. by destruct (JsObject.array_index kv.1).
Qed.

(** Without array indices among the keys [Object.entries] lists the
    properties in creation order. *)
Lemma entries_plain {V} (o : JsObject.obj V) :
  forallb (fun kv => negb (JsObject.is_array_index (fst kv))) o = true ->
  JsObject.entries o = o.
Proof.
  intros H. unfold JsObject.entries. rewrite (index_entries_plain o H). simpl.
  induction o as [|kv o IH]; [done|]. cbn [forallb List.filter] in *.
  apply andb_true_iff in H as [-> Ho]. by rewrite (IH Ho).
Qed.

Lemma keys_plain {V} (o : JsObject.obj V) :
  forallb (fun kv => negb (JsObject.is_array_index (fst kv))) o = true ->
  JsObject.keys o = List.map fst o.
Proof. intros H. unfold JsObject.keys. by rewrite (entries_plain o H). Qed.

Section Facts.

Context (toLowerCase : string -> string)
        (load : string -> list node) (render : list node -> string)
        (origin : list event -> string -> error + string)
        (rev : revision) (baseUrl : string) (endpoints : JsObject.obj string).

Local Abbreviation fetch := (fetchDoc load render origin rev baseUrl endpoints).
Local Abbreviation search := (searchDocs toLowerCase load render origin rev baseUrl endpoints).
Local Abbreviation loop := (search_loop toLowerCase load render origin rev baseUrl endpoints).
Local Abbreviation each := (fetch_each load render origin rev baseUrl endpoints).
Local Abbreviation answer := (response origin rev baseUrl endpoints).
Local Abbreviation get_event := (get_of rev baseUrl endpoints).

Lemma fetch_unknown element s :
  truthy (JsObject.get endpoints element) = false ->
  fetch element s = (inl (unknown_element rev endpoints element), s).
Proof. intros H. unfold fetchDoc. by rewrite H. Qed.

Lemma fetch_known element s :
  truthy (JsObject.get endpoints element) = true ->
  fetch element s =
  match answer element s with
  | inr data =>
      if Js.truthy_string data
      then (inr (extract load render data), extend s [fetching element; get_event element])
      else (inl (failed_to_fetch element),
            extend s [fetching element; get_event element;
                      fetch_error element
                        (McpError InternalError "Empty response from Marimo docs")])
  | inl e =>
      (inl (failed_to_fetch element),
       extend s [fetching element; get_event element; fetch_error element e])
  end.
Proof.
  intros H. unfold fetchDoc, response. rewrite H. cbn [negb].
  unfold try_catch, bind, emit, axios_get, throw, ret. cbn [trace extend].
  destruct (origin _ _) as [e|data]; rewrite ?extend_extend; [done|].
  destruct (Js.truthy_string data); cbn [negb]; by rewrite ?extend_extend.
Qed.

(** A rejected GET and an empty body both leave [fetchDoc] as the
    [InternalError] of its [catch]. *)
Lemma fetch_failure_internal element path s :
  JsObject.own endpoints element = Some path -> path <> EmptyString ->
  match answer element s with inl _ => True | inr data => data = EmptyString end ->
  exists s',
    fetch element s
    = (inl (McpError InternalError ("Failed to fetch documentation for " +:+ element)), s')
    /\ Js.includes ("Failed to fetch documentation for " +:+ element) element = true.
Proof.
  intros Hown Hpath Hfail.
  destruct (get_own _ _ _ Hown Hpath) as [_ Htruthy].
  rewrite (fetch_known element s Htruthy).
  destruct (answer element s) as [e|data].
  - eexists. split; [reflexivity|]. apply JsFacts.includes_suffix.
  - subst data. eexists. split; [reflexivity|]. apply JsFacts.includes_suffix.
Qed.

(** Every run of [fetchDoc] on a name that resolves sends one GET. *)
Lemma fetch_known_gets element s :
  truthy (JsObject.get endpoints element) = true ->
  gets (trace (snd (fetch element s)))
  = gets (trace s) ++ [request_url rev baseUrl (JsObject.get endpoints element)].
Proof.
  intros H. rewrite (fetch_known element s H).
  destruct (answer element s) as [e|data]; [|destruct (Js.truthy_string data)];
    cbn [snd extend trace]; by rewrite gets_app.
Qed.

Lemma loop_each query elements : forall results s,
  loop query elements results s
  = (inr (results ++ List.filter (matches_query toLowerCase query) (fetched (fst (each elements s)))),
     snd (each elements s)).
Proof.
  induction elements as [|element rest IH]; intros results s.
  - cbn. by rewrite app_nil_r.
  - cbn [search_loop fetch_each]. unfold bind, try_catch.
    destruct (fetch element s) as [[e|doc] s1].
    + cbn [emit ret snd]. rewrite IH.
      destruct (each rest _) as [rs s3]. done.
    + destruct (matches_query toLowerCase query doc) eqn:Hm; cbn [ret]; rewrite IH;
        destruct (each rest s1) as [rs s3]; cbn [fst snd];
        change (fetched (inr doc :: rs)) with (doc :: fetched rs);
        cbn [List.filter]; rewrite Hm; [|done].
      by rewrite <- app_assoc.
Qed.

(** *** The cache *)

Lemma fetch_cache element s : cache (snd (fetch element s)) = cache s.
Proof.
  destruct (truthy (JsObject.get endpoints element)) eqn:H.
  - rewrite (fetch_known element s H).
    by destruct (answer element s) as [e|data]; [|destruct (Js.truthy_string data)].
  - by rewrite (fetch_unknown element s H).
Qed.

Lemma each_cache elements : forall s, cache (snd (each elements s)) = cache s.
Proof.
  induction elements as [|element rest IH]; intros s; [done|].
  cbn [fetch_each]. pose proof (fetch_cache element s) as Hf.
  destruct (fetch element s) as [r s1]. cbn [snd] in Hf.
  match goal with |- context [each rest ?s2] =>
    specialize (IH s2); destruct (each rest s2) as [rs s3] end.
  cbn [snd] in *. rewrite IH. by destruct r.
Qed.

Lemma search_cache query s : cache (snd (search query s)) = cache s.
Proof. unfold searchDocs. rewrite loop_each. cbn [snd]. apply each_cache. Qed.

Lemma call_cache req s :
  cache (snd (call_tool toLowerCase load render origin rev baseUrl endpoints req s)) = cache s.
Proof.
  unfold call_tool. destruct (arguments req) as [args|]; [|done].
  destruct (String.eqb (name req) "get_element_api").
  - destruct (truthy (JsObject.get args "element")); [|done]. cbn [negb]. unfold bind.
    pose proof (fetch_cache (to_string (JsObject.get args "element")) s) as H.
    by destruct (fetch _ s) as [[e|doc] s1].
  - destruct (String.eqb (name req) "search_api"); [|done].
    destruct (truthy (JsObject.get args "query")); [|done]. cbn [negb]. unfold bind.
    pose proof (search_cache (to_string (JsObject.get args "query")) s) as H.
    by destruct (search _ s) as [[e|docs] s1].
Qed.

Lemma invoke_cache i s :
  cache (invoke toLowerCase load render origin rev baseUrl endpoints i s) = cache s.
Proof. destruct i; [apply fetch_cache | apply search_cache | apply call_cache]. Qed.

Lemma invoke_all_cache calls : forall s,
  cache (invoke_all toLowerCase load render origin rev baseUrl endpoints calls s) = cache s.
Proof.
  unfold invoke_all.
  induction calls as [|i calls IH]; intros s; [done|].
  cbn [fold_left]. by rewrite IH, invoke_cache.
Qed.

Lemma set_cache_extend c s es : extend (set_cache c s) es = set_cache c (extend s es).
Proof. reflexivity. Qed.

Lemma fetch_set_cache c element s :
  fetch element (set_cache c s)
  = (fst (fetch element s), set_cache c (snd (fetch element s))).
Proof.
  destruct (truthy (JsObject.get endpoints element)) eqn:H.
  - rewrite !(fetch_known _ _ H). unfold response. cbn [set_cache trace].
    by destruct (origin _ _) as [e|data]; [|destruct (Js.truthy_string data)].
  - by rewrite !(fetch_unknown _ _ H).
Qed.

Lemma each_set_cache c elements : forall s,
  each elements (set_cache c s)
  = (fst (each elements s), set_cache c (snd (each elements s))).
Proof.
  induction elements as [|element rest IH]; intros s; [done|].
  cbn [fetch_each]. rewrite fetch_set_cache.
  destruct (fetch element s) as [[e|doc] s1]; cbn [fst snd emit];
    rewrite ?set_cache_extend, IH;
    match goal with |- context [each rest ?s2] => by destruct (each rest s2) end.
Qed.

Lemma search_set_cache c query s :
  search query (set_cache c s)
  = (fst (search query s), set_cache c (snd (search query s))).
Proof. unfold searchDocs. rewrite !loop_each, each_set_cache. done. Qed.

Lemma call_set_cache c req s :
  call_tool toLowerCase load render origin rev baseUrl endpoints req (set_cache c s)
  = (fst (call_tool toLowerCase load render origin rev baseUrl endpoints req s),
     set_cache c (snd (call_tool toLowerCase load render origin rev baseUrl endpoints req s))).
Proof.
  unfold call_tool. destruct (arguments req) as [args|]; [|done].
  destruct (String.eqb (name req) "get_element_api").
  - destruct (truthy (JsObject.get args "element")); [|done]. cbn [negb]. unfold bind.
    rewrite fetch_set_cache. by destruct (fetch _ s) as [[e|doc] s1].
  - destruct (String.eqb (name req) "search_api"); [|done].
    destruct (truthy (JsObject.get args "query")); [|done]. cbn [negb]. unfold bind.
    rewrite search_set_cache. by destruct (search _ s) as [[e|docs] s1].
Qed.

(** C9.  No operation writes the cache or reads it: after any sequence
    of fetches, searches and tool calls from the initial state the cache
    is empty; the outcome of a fetch, a search or a tool call is the
    same whatever the cache holds; and a fetch that succeeds has sent
    its GET, whatever was fetched before. *)
Theorem cache_never_written_nor_read :
  (forall calls,
     cache (invoke_all toLowerCase load render origin rev baseUrl endpoints calls initial) = ∅)
  /\ (forall c element s,
        fetch element (set_cache c s)
        = (fst (fetch element s), set_cache c (snd (fetch element s))))
  /\ (forall c query s,
        search query (set_cache c s)
        = (fst (search query s), set_cache c (snd (search query s))))
  /\ (forall c req s,
        call_tool toLowerCase load render origin rev baseUrl endpoints req (set_cache c s)
        = (fst (call_tool toLowerCase load render origin rev baseUrl endpoints req s),
           set_cache c (snd (call_tool toLowerCase load render origin rev baseUrl endpoints req s))))
  /\ (forall element doc s s',
        fetch element s = (inr doc, s') ->
        gets (trace s')
        = gets (trace s) ++ [request_url rev baseUrl (JsObject.get endpoints element)]).
Proof.
  split; [|split; [|split; [|split]]].
  - intros calls. by rewrite invoke_all_cache.
  - apply fetch_set_cache.
  - apply search_set_cache.
  - apply call_set_cache.
  - intros element doc s s' H.
    destruct (truthy (JsObject.get endpoints element)) eqn:Ht.
    + pose proof (fetch_known_gets element s Ht) as Hg. by rewrite H in Hg.
    + by rewrite (fetch_unknown element s Ht) in H.
Qed.

(** *** The dispatcher *)

Local Abbreviation call := (call_tool toLowerCase load render origin rev baseUrl endpoints).

Lemma get_absent (args : JsObject.obj string) k :
  JsObject.own args k = None -> JsObject.inherited k = false ->
  truthy (JsObject.get args k) = false.
Proof. intros H Hi. unfold JsObject.get. by rewrite H, Hi. Qed.

Lemma get_empty (args : JsObject.obj string) k :
  JsObject.own args k = Some EmptyString -> truthy (JsObject.get args k) = false.
Proof. intros H. unfold JsObject.get. by rewrite H. Qed.

(** C8, as the dispatcher has it.  A request without an arguments
    object fails with [InvalidParams]; a request for [get_element_api]
    whose arguments lack the [element] key fails with [InvalidParams]
    and a message naming the field; a request that carries arguments and
    names no known tool fails with [MethodNotFound].  In each case the
    state is the one before the request: nothing was sent or logged. *)
Theorem call_tool_validation req s :
  (arguments req = None ->
   call req s = (inl (McpError InvalidParams "Missing arguments"), s))
  /\ (forall args,
        arguments req = Some args -> name req = "get_element_api" ->
        JsObject.own args "element" = None ->
        call req s = (inl (McpError InvalidParams "Missing element parameter"), s))
  /\ (forall args,
        arguments req = Some args ->
        name req <> "get_element_api" -> name req <> "search_api" ->
        call req s = (inl (McpError MethodNotFound ("Unknown tool: " +:+ name req)), s)).
Proof.
  unfold call_tool. split; [|split].
  - by intros ->.
  - intros args -> -> H. cbn [String.eqb Ascii.eqb Bool.eqb].
    change (String.eqb "get_element_api" "get_element_api") with true. cbv iota.
    by rewrite (get_absent args "element" H eq_refl).
  - intros args -> H1 H2.
    apply String.eqb_neq in H1, H2. by rewrite H1, H2.
Qed.

(** C10.  An [element] or a [query] bound to the empty string is
    rejected like a missing one, with [InvalidParams] and the message
    for the missing field.  The outcome is the same for every endpoint
    table and every origin, and the state is left as it was: the table
    was not read and no GET was sent. *)
Theorem call_tool_empty_string req args s :
  arguments req = Some args ->
  (name req = "get_element_api" -> JsObject.own args "element" = Some EmptyString ->
   call req s = (inl (McpError InvalidParams "Missing element parameter"), s)
   /\ call req s = call {| name := name req; arguments := Some [] |} s)
  /\ (name req = "search_api" -> JsObject.own args "query" = Some EmptyString ->
      call req s = (inl (McpError InvalidParams "Missing query parameter"), s)
      /\ call req s = call {| name := name req; arguments := Some [] |} s).
Proof.
  intros Hargs. unfold call_tool. rewrite Hargs. cbn [arguments name].
  split; intros -> H.
  - change (String.eqb "get_element_api" "get_element_api") with true. cbv iota.
    by rewrite (get_empty args "element" H).
  - change (String.eqb "search_api" "get_element_api") with false.
    change (String.eqb "search_api" "search_api") with true. cbv iota.
    by rewrite (get_empty args "query" H).
Qed.

End Facts.

Section Programs.

Context (toLowerCase : string -> string)
        (load : string -> list node) (render : list node -> string)
        (origin : list event -> string -> error + string).

Local Abbreviation fetch p :=
  (fetchDoc load render origin
     (program_revision p) (program_baseUrl p) (program_endpoints p)).
Local Abbreviation search p :=
  (searchDocs toLowerCase load render origin
     (program_revision p) (program_baseUrl p) (program_endpoints p)).
Local Abbreviation each p :=
  (fetch_each load render origin
     (program_revision p) (program_baseUrl p) (program_endpoints p)).
Local Abbreviation answer p :=
  (response origin (program_revision p) (program_baseUrl p) (program_endpoints p)).

(** The URL of the request when the joined string does not open with
    two slashes and, in the revision that sends it as it is, has nothing
    to collapse. *)
Lemma request_url_collapsed rev baseUrl path :
  Js.startsWith (baseUrl +:+ path) "//" = false ->
  (rev = InputsOnly -> Spec.collapse_slashes (baseUrl +:+ path) = baseUrl +:+ path) ->
  request_url rev baseUrl (JsObject.Own path) = Spec.collapse_slashes (baseUrl +:+ path).
Proof.
  intros Hhead Hsame. destruct rev; cbn [request_url to_string].
  - by apply UrlFacts.replace_dup_slashes_collapse.
  - symmetry. by apply Hsame.
Qed.

Lemma revisions_rows p :
  p ∈ revisions ->
  forallb (Spec.row_ok (program_baseUrl p)) (program_endpoints p) = true
  /\ plain_keys (program_endpoints p) = true.
Proof.
  intros Hp. apply list_elem_of_In in Hp.
  destruct Hp as [<-|[<-|[]]]; split; vm_compute; reflexivity.
Qed.

Lemma revisions_row p element path :
  p ∈ revisions -> JsObject.own (program_endpoints p) element = Some path ->
  path <> EmptyString
  /\ Js.startsWith (program_baseUrl p +:+ path) "//" = false
  /\ Spec.collapse_slashes (program_baseUrl p +:+ path) = program_baseUrl p +:+ path.
Proof.
  intros Hp Hown. destruct (revisions_rows p Hp) as [Hrows _].
  apply own_elem_of, list_elem_of_In in Hown.
  pose proof (proj1 (forallb_forall _ _) Hrows _ Hown) as Hrow.
  unfold Spec.row_ok in Hrow. cbn [snd] in Hrow.
  apply andb_true_iff in Hrow as [[Hpath Hhead]%andb_true_iff Hsame].
  apply negb_true_iff in Hhead. apply String.eqb_eq in Hsame.
  split; [|done]. by intros ->.
Qed.

(** C3.  In both revisions, for a name of the endpoint table, when the
    GET is rejected or its response body is empty, [fetchDoc] fails, and
    the failure that leaves it is one [InternalError] whose message
    holds the name. *)
Theorem fetchDoc_failure_is_internal_error p element path s :
  p ∈ revisions ->
  JsObject.own (program_endpoints p) element = Some path ->
  match answer p element s with inl _ => True | inr data => data = EmptyString end ->
  exists s',
    fetch p element s
    = (inl (McpError InternalError ("Failed to fetch documentation for " +:+ element)), s')
    /\ Js.includes ("Failed to fetch documentation for " +:+ element) element = true.
Proof.
  intros Hp Hown. apply (fetch_failure_internal _ _ _ _ _ _ element path s Hown).
  by destruct (revisions_row p element path Hp Hown).
Qed.

(** C4.  For a name of the endpoint table [fetchDoc] sends one GET, and
    its URL is the base URL followed by the path of the name, with the
    repeated slashes outside the scheme separator collapsed to one.
    This holds of the revision that cleans the URL for any base URL and
    any table, provided the joined string does not open with two
    slashes, which the replacement would leave; and so it holds for
    every name of the table that revision ships. *)
Theorem fetchDoc_sends_one_get :
  (forall baseUrl endpoints element path s,
     JsObject.own endpoints element = Some path -> path <> EmptyString ->
     Js.startsWith (baseUrl +:+ path) "//" = false ->
     gets (trace (snd (fetchDoc load render origin AllSections baseUrl endpoints
                         element s)))
     = gets (trace s) ++ [Spec.collapse_slashes (baseUrl +:+ path)])
  /\ (forall element path s,
        JsObject.own MarimoDocs.endpoints element = Some path ->
        gets (trace (snd (fetchDoc load render origin MarimoDocs.revision
                            MarimoDocs.baseUrl MarimoDocs.endpoints element s)))
        = gets (trace s) ++ [Spec.collapse_slashes (MarimoDocs.baseUrl +:+ path)]).
Proof.
  assert (Hgen : forall baseUrl endpoints element path s,
     JsObject.own endpoints element = Some path -> path <> EmptyString ->
     Js.startsWith (baseUrl +:+ path) "//" = false ->
     gets (trace (snd (fetchDoc load render origin AllSections baseUrl endpoints
                         element s)))
     = gets (trace s) ++ [Spec.collapse_slashes (baseUrl +:+ path)]).
  { intros baseUrl endpoints element path s Hown Hpath Hhead.
    destruct (get_own _ _ _ Hown Hpath) as [Hget Htruthy].
    rewrite (fetch_known_gets _ _ _ _ _ _ _ _ Htruthy), Hget.
    cbn [request_url to_string]. by rewrite UrlFacts.replace_dup_slashes_collapse. }
  split; [exact Hgen|].
  intros element path s Hown.
  destruct (revisions_row MarimoDocs.program element path) as (Hpath & Hhead & _);
    [left|exact Hown|].
  by apply Hgen.
Qed.

(** The earlier revision sends the base URL followed by the path as
    they are; in its own table no row leaves a slash to collapse. *)
Lemma earlier_revision_sends_as_is baseUrl endpoints element path s :
  JsObject.own endpoints element = Some path -> path <> EmptyString ->
  gets (trace (snd (fetchDoc load render origin InputsOnly baseUrl endpoints element s)))
  = gets (trace s) ++ [baseUrl +:+ path].
Proof.
  intros Hown Hpath. destruct (get_own _ _ _ Hown Hpath) as [Hget Htruthy].
  by rewrite (fetch_known_gets _ _ _ _ _ _ _ _ Htruthy), Hget.
Qed.

End Programs.

End ServerFacts.

(** ** Selections *)

Module CheerioFacts.
Import Cheerio.

(** Induction on a node with the hypothesis for every child. *)
Lemma node_forall_ind (P : node -> Prop) :
  (forall data, P (Text data)) ->
  (forall tag attribs children, Forall P children -> P (Element tag attribs children)) ->
  forall n, P n.
Proof.
  intros HText HElement. fix IH 1. intros [data|tag attribs children].
  - apply HText.
  - apply HElement. induction children as [|c cs IHcs]; constructor; [apply IH|exact IHcs].
Qed.

Lemma selected_unscoped remaining n : selected false remaining n = false.
Proof. by destruct remaining as [|s [|s' r]]. Qed.

(** Outside every context element nothing is selected. *)
Lemma walk_empty_context n : forall remaining p, walk [] false remaining p n = [].
Proof.
  induction n as [data|tag attribs children IH] using node_forall_ind;
    intros remaining p; [done|].
  cbn [walk existsb orb]. rewrite selected_unscoped. cbn [app].
  generalize 0%nat as i.
  induction IH as [|c cs Hc _ IHcs]; intros i; [done|].
  by rewrite Hc, IHcs.
Qed.

Lemma walk_forest_empty_context ns : forall remaining p i,
  walk_forest [] false remaining p i ns = [].
Proof.
  induction ns as [|n ns IH]; intros remaining p i; [done|].
  cbn [walk_forest]. by rewrite walk_empty_context, IH.
Qed.

Lemma find_empty doc selector : find doc [] selector = [].
Proof. apply walk_forest_empty_context. Qed.

Lemma text_eq i (cells : selection) :
  text (eq i cells)
  = match cells !! i with Some c => text_of (snd c) | None => EmptyString end.
Proof. unfold eq. by destruct (cells !! i). Qed.

End CheerioFacts.

(** ** The extractor *)

Module ExtractorFacts.
Import Cheerio Server JsFacts.

Section Facts.

Context (load : string -> list node) (render : list node -> string).

(** C6.  A page without an element of class [md-content] yields the
    record whose title and description are empty and whose parameters
    and examples are empty lists; the extraction returns, it raises
    nothing. *)
Theorem extract_without_content data :
  select (load data) [Class "md-content"] = [] ->
  extract load render data
  = {| title := EmptyString; description := EmptyString;
       parameters := []; examples := [] |}.
Proof.
  intros H. unfold extract. rewrite H, !CheerioFacts.find_empty. reflexivity.
Qed.

(** What the callback makes of a row, by the texts of its cells. *)
Lemma parse_row_cells doc row :
  parse_row doc row
  = match List.map (fun cell => text_of (snd cell)) (find doc [row] [Tag "td"]) with
    | name :: description :: others =>
        [ {| param_name := Js.trim name;
             param_description := Js.trim description;
             param_required :=
               match others with
               | third :: _ => Js.includes third "required"
               | [] => false
               end |} ]
    | _ => []
    end.
Proof.
  unfold parse_row. destruct (find doc [row] [Tag "td"]) as [|c0 [|c1 cells]]; [done..|].
  cbn [length Nat.leb List.map]. rewrite !CheerioFacts.text_eq, orb_false_r.
  cbn [lookup list_lookup]. by destruct cells.
Qed.

Lemma parseParameters_table section :
  parseParameters load render section
  = flat_map
      (fun cells =>
         match cells with
         | name :: description :: others =>
             [ {| param_name := Js.trim name;
                  param_description := Js.trim description;
                  param_required :=
                    match others with
                    | third :: _ => Js.includes third "required"
                    | [] => false
                    end |} ]
         | _ => []
         end)
      (Rows.table load render section).
Proof.
  unfold parseParameters, Rows.table, Rows.rows, Rows.cells, Rows.reparsed.
  induction (select _ [Tag "tr"]) as [|row rows IH]; [done|].
  cbn [flat_map List.map]. by rewrite parse_row_cells, IH.
Qed.

(** C5.  [parseParameters] returns one parameter for each row of two
    cells or more, in the order of the rows, and none for a row of
    fewer: the name and the description are the texts of the first two
    cells, trimmed, and the parameter is required exactly when a third
    cell holds the word required, in these letters.  So the rows n, d
    and n, d, required and n give the parameter n, d, not required, and
    the parameter n, d, required; and Required with a capital does not
    count. *)
Theorem parseParameters_by_rows section :
  Forall2 Spec.row_gives
    (List.filter (fun cells => (2 <=? length cells)%nat)
       (Rows.table load render section))
    (parseParameters load render section)
  /\ (Rows.table load render section = [["n"; "d"]; ["n"; "d"; "required"]; ["n"]] ->
      parseParameters load render section
      = [ {| param_name := "n"; param_description := "d"; param_required := false |};
          {| param_name := "n"; param_description := "d"; param_required := true |} ])
  /\ (Rows.table load render section = [["n"; "d"; "Required"]] ->
      parseParameters load render section
      = [ {| param_name := "n"; param_description := "d"; param_required := false |} ]).
Proof.
  rewrite parseParameters_table. split; [|split; intros ->; reflexivity].
  induction (Rows.table load render section) as [|cells table IH]; [constructor|].
  cbn [List.filter flat_map].
  destruct cells as [|name [|description others]]; [done..|].
  cbn [length Nat.leb app]. constructor; [|exact IH].
  exists name, description, others. cbn [param_name param_description param_required].
  split; [done|]. split; [done|]. split; [done|].
  destruct others as [|third others]; cbn [head].
  - split; [done|]. by intros (third & [=] & _).
  - rewrite includes_occurs. split; [by exists third|]. by intros (? & [= <-] & H).
Qed.

End Facts.

End ExtractorFacts.

(** ** Two runs: the scenario of the specification, and an inherited name *)

Module ScenarioFacts.
Import Cheerio Server ServerFacts.

Section Facts.

Context (load : string -> list node) (render : list node -> string)
        (origin : list event -> string -> error + string).

(** C7.  With the table that maps slider to /inputs/slider/ and the base
    URL https://x/api, when the origin serves the page of the scenario
    at the URL of the element and cheerio parses it to the document of
    the scenario, fetching slider yields the title Slider, the
    description A slider., no parameters and no examples. *)
Theorem fetch_slider_scenario rev s :
  load Scenario.page = Scenario.document ->
  origin (trace s ++ [fetching "slider"]) "https://x/api/inputs/slider/"
  = inr Scenario.page ->
  fst (fetchDoc load render origin rev Scenario.baseUrl Scenario.endpoints "slider" s)
  = inr {| title := "Slider"; description := "A slider.";
           parameters := []; examples := [] |}.
Proof.
  intros Hload Hpage.
  rewrite fetch_known by reflexivity.
  unfold response.
  replace (request_url rev Scenario.baseUrl (JsObject.get Scenario.endpoints "slider"))
    with "https://x/api/inputs/slider/" by (by destruct rev).
  rewrite Hpage. cbn [Js.truthy_string Scenario.page String.append fst].
  unfold extract. change (load _) with (load Scenario.page). rewrite Hload.
  vm_compute. reflexivity.
Qed.

(** C1 at the name constructor.  The name is no key of either endpoint
    table, yet the property read finds [Object.prototype.constructor],
    a truthy value: [fetchDoc] sends a GET instead of reporting the
    unknown element, and what it returns is never [InvalidParams]. *)
Theorem fetchDoc_constructor_not_unknown s :
  JsObject.own MarimoDocs.endpoints "constructor" = None
  /\ JsObject.own MarimoDocsInputs.endpoints "constructor" = None
  /\ (forall message,
        fst (fetchDoc load render origin MarimoDocs.revision
               MarimoDocs.baseUrl MarimoDocs.endpoints "constructor" s)
        <> inl (McpError InvalidParams message))
  /\ gets (trace (snd (fetchDoc load render origin MarimoDocs.revision
                         MarimoDocs.baseUrl MarimoDocs.endpoints "constructor" s)))
     = gets (trace s)
       ++ ["https://docs.marimo.io/apifunction Object() { [native code] }"]
  /\ (forall message,
        fst (fetchDoc load render origin MarimoDocsInputs.revision
               MarimoDocsInputs.baseUrl MarimoDocsInputs.endpoints "constructor" s)
        <> inl (McpError InvalidParams message))
  /\ gets (trace (snd (fetchDoc load render origin MarimoDocsInputs.revision
                         MarimoDocsInputs.baseUrl MarimoDocsInputs.endpoints
                         "constructor" s)))
     = gets (trace s)
       ++ ["https://docs.marimo.io/api/inputsfunction Object() { [native code] }"].
Proof.
  assert (H1 : truthy (JsObject.get MarimoDocs.endpoints "constructor") = true)
    by (vm_compute; reflexivity).
  assert (H2 : truthy (JsObject.get MarimoDocsInputs.endpoints "constructor") = true)
    by (vm_compute; reflexivity).
  split; [vm_compute; reflexivity|]. split; [vm_compute; reflexivity|].
  split; [|split; [|split]].
  - intros message. rewrite (fetch_known _ _ _ _ _ _ _ _ H1).
    by destruct (response _ _ _ _ _ _) as [e|data]; [|destruct (Js.truthy_string data)].
  - rewrite (fetch_known_gets _ _ _ _ _ _ _ _ H1). f_equal.
  - intros message. rewrite (fetch_known _ _ _ _ _ _ _ _ H2).
    by destruct (response _ _ _ _ _ _) as [e|data]; [|destruct (Js.truthy_string data)].
  - rewrite (fetch_known_gets _ _ _ _ _ _ _ _ H2). f_equal.
Qed.

End Facts.
End ScenarioFacts.

(** ** The message for an unknown element *)

Module GroupingFacts.
Import Server Spec ServerFacts.

Section Maps.

Context {V : Type}.
Implicit Types (o : JsObject.obj V) (k : string) (v : V).

(** A property that is not there yet goes last. *)
Lemma set_absent o k v : JsObject.own o k = None -> JsObject.set o k v = o ++ [(k, v)].
Proof.
  induction o as [|[k' v'] o IH]; [done|]. simpl.
  destruct (String.eqb k' k); [done|]. intros H. by rewrite IH.
Qed.

(** The objects whose property [k] holds [g k], for the keys [ks]. *)
Lemma own_tabulate (g : string -> V) ks k :
  JsObject.own (List.map (fun k' => (k', g k')) ks) k
  = if decide (k ∈ ks) then Some (g k) else None.
Proof.
  induction ks as [|k' ks IH]; [done|]. simpl.
  destruct (String.eqb_spec k' k) as [->|Hne].
  - rewrite decide_True; [done|]. apply list_elem_of_here.
  - rewrite IH. destruct (decide (k ∈ ks)) as [Hin|Hnin].
    + rewrite decide_True; [done|]. by apply list_elem_of_further.
    + rewrite decide_False; [done|]. intros [?|?]%elem_of_cons; congruence.
Qed.

Lemma set_tabulate (g : string -> V) ks k v :
  NoDup ks -> k ∈ ks ->
  JsObject.set (List.map (fun k' => (k', g k')) ks) k v
  = List.map (fun k' => (k', if String.eqb k' k then v else g k')) ks.
Proof.
  induction ks as [|k' ks IH]; intros Hnd Hin; [by apply elem_of_nil in Hin|].
  apply NoDup_cons in Hnd as [Hk' Hnd]. simpl.
  destruct (String.eqb_spec k' k) as [->|Hne].
  - f_equal. apply map_ext_in. intros k'' Hin'. apply list_elem_of_In in Hin'.
    destruct (String.eqb_spec k'' k) as [->|]; [done|done].
  - f_equal. apply IH; [done|]. apply elem_of_cons in Hin as [?|?]; [congruence|done].
Qed.

End Maps.

Implicit Types (endpoints : JsObject.obj string).

Lemma sections_snoc endpoints kv :
  sections (endpoints ++ [kv])
  = if decide (section_of (snd kv) ∈ sections endpoints) then sections endpoints
    else sections endpoints ++ [section_of (snd kv)].
Proof. unfold sections. by rewrite fold_left_app. Qed.

Lemma names_in_snoc endpoints kv section :
  names_in (endpoints ++ [kv]) section
  = names_in endpoints section
    ++ (if String.eqb (section_of (snd kv)) section then [fst kv] else []).
Proof.
  unfold names_in. rewrite List.filter_app, List.map_app. cbn [List.filter].
  by destruct (String.eqb _ _).
Qed.

Lemma sections_NoDup endpoints : NoDup (sections endpoints).
Proof.
  induction endpoints as [|kv endpoints IH] using rev_ind; [constructor|].
  rewrite sections_snoc. destruct (decide _) as [Hin|Hnin]; [done|].
  apply NoDup_app. split; [done|]. split; [|apply NoDup_singleton].
  intros x Hx ->%list_elem_of_singleton. done.
Qed.

(** The section of every row is among the sections. *)
Lemma section_of_row endpoints kv :
  kv ∈ endpoints -> section_of (snd kv) ∈ sections endpoints.
Proof.
  induction endpoints as [|kv' endpoints IH] using rev_ind;
    [by intros ?%elem_of_nil|].
  rewrite sections_snoc. intros [Hin| ->%list_elem_of_singleton]%elem_of_app.
  - specialize (IH Hin). destruct (decide _); [done|].
    apply elem_of_app. by left.
  - destruct (decide _) as [Hs|Hs]; [done|]. apply elem_of_app. right.
    by apply list_elem_of_singleton.
Qed.

Lemma names_in_nil endpoints section :
  (forall kv, kv ∈ endpoints -> section_of (snd kv) <> section) ->
  names_in endpoints section = [].
Proof.
  unfold names_in. induction endpoints as [|kv endpoints IH]; intros H; [done|].
  cbn [List.filter].
  destruct (String.eqb_spec (section_of kv.2) section) as [Heq|Hne].
  - exfalso. apply (H kv); [apply list_elem_of_here|done].
  - apply IH. intros kv' Hin. apply H. by apply list_elem_of_further.
Qed.

Lemma names_in_fresh endpoints section :
  section ∉ sections endpoints -> names_in endpoints section = [].
Proof.
  intros Hnin. apply names_in_nil. intros kv Hin <-.
  by apply Hnin, section_of_row.
Qed.

(** One round of the loop takes the grouping of the rows read so far to
    the grouping with the next row. *)
Lemma group_step_grouped endpoints kv :
  JsObject.inherited (section_of (snd kv)) = false ->
  group_step (inr (grouped endpoints)) kv = inr (grouped (endpoints ++ [kv])).
Proof.
  intros Hproto. unfold group_step, JsObject.get, grouped.
  rewrite own_tabulate, sections_snoc.
  destruct (decide (section_of kv.2 ∈ sections endpoints)) as [Hin|Hnin].
  - f_equal. rewrite set_tabulate by (done || apply sections_NoDup).
    apply map_ext. intros section. rewrite names_in_snoc.
    rewrite (String.eqb_sym section).
    destruct (String.eqb_spec (section_of kv.2) section) as [->|]; [done|].
    by rewrite app_nil_r.
  - rewrite Hproto. f_equal.
    rewrite set_absent by (by rewrite own_tabulate, decide_False).
    rewrite List.map_app. cbn [List.map]. f_equal.
    + apply map_ext_in. intros section Hs%list_elem_of_In. rewrite names_in_snoc.
      destruct (String.eqb_spec (section_of kv.2) section) as [<-|]; [done|].
      by rewrite app_nil_r.
    + by rewrite names_in_snoc, String.eqb_refl, names_in_fresh.
Qed.

Lemma fold_group_step endpoints :
  forallb (fun kv => negb (JsObject.inherited (section_of (snd kv)))) endpoints = true ->
  fold_left group_step endpoints (inr []) = inr (grouped endpoints).
Proof.
  induction endpoints as [|kv endpoints IH] using rev_ind; intros H; [done|].
  rewrite forallb_app in H. apply andb_true_iff in H as [H Hkv].
  cbn [forallb] in Hkv. rewrite andb_true_r in Hkv. apply negb_true_iff in Hkv.
  by rewrite fold_left_app, (IH H); cbn [fold_left]; apply group_step_grouped.
Qed.

Lemma groupable_parts endpoints :
  groupable endpoints = true ->
  plain_keys endpoints = true
  /\ forallb (fun kv => negb (JsObject.inherited (section_of (snd kv)))) endpoints = true
  /\ (forall kv, kv ∈ endpoints ->
        JsObject.is_array_index (section_of (snd kv)) = false).
Proof.
  unfold groupable, plain_keys. intros H.
  rewrite forallb_forall in H. repeat split.
  - apply forallb_forall. intros kv Hin. specialize (H kv Hin).
    by apply andb_true_iff in H as [[? ?]%andb_true_iff ?].
  - apply forallb_forall. intros kv Hin. specialize (H kv Hin).
    by apply andb_true_iff in H as [[? ?]%andb_true_iff ?].
  - intros kv Hin%list_elem_of_In. specialize (H kv Hin).
    apply andb_true_iff in H as [[? ?%negb_true_iff]%andb_true_iff ?]. done.
Qed.

Lemma sections_from_rows endpoints section :
  section ∈ sections endpoints ->
  exists kv, kv ∈ endpoints /\ section_of (snd kv) = section.
Proof.
  induction endpoints as [|kv endpoints IH] using rev_ind;
    [by intros ?%elem_of_nil|].
  rewrite sections_snoc. destruct (decide _) as [Hs|Hs].
  - intros Hin. destruct (IH Hin) as (kv' & Hkv' & Heq).
    exists kv'. split; [|done]. apply elem_of_app. by left.
  - intros [Hin| ->%list_elem_of_singleton]%elem_of_app.
    + destruct (IH Hin) as (kv' & Hkv' & Heq).
      exists kv'. split; [|done]. apply elem_of_app. by left.
    + exists kv. split; [|done]. apply elem_of_app. right.
      by apply list_elem_of_singleton.
Qed.

(** The loop of the message builds the grouping the specification asks
    for, and [Object.entries] lists it in that order. *)
Lemma group_by_section_grouped endpoints :
  groupable endpoints = true ->
  group_by_section endpoints = inr (grouped endpoints)
  /\ JsObject.entries (grouped endpoints) = grouped endpoints.
Proof.
  intros H. destruct (groupable_parts endpoints H) as (Hkeys & Hproto & Hindex).
  unfold group_by_section. rewrite (entries_plain endpoints Hkeys).
  split; [by apply fold_group_step|].
  apply entries_plain. apply forallb_forall. intros [section names] Hin.
  unfold grouped in Hin. apply in_map_iff in Hin as (section' & [= <- _] & Hs).
  apply list_elem_of_In, sections_from_rows in Hs as (kv & Hkv & <-).
  cbn [fst]. by rewrite (Hindex kv Hkv).
Qed.

(** Every name of the table is in the grouping once. *)
Lemma grouped_names endpoints :
  concat (List.map snd (grouped endpoints)) ≡ₚ List.map fst endpoints.
Proof.
  induction endpoints as [|kv endpoints IH] using rev_ind; [done|].
  rewrite List.map_app. cbn [List.map]. rewrite <- IH. clear IH.
  unfold grouped. rewrite sections_snoc.
  assert (Hother : forall l, 
    section_of kv.2 ∉ l ->
    List.map (fun section => (section, names_in (endpoints ++ [kv]) section)) l
    = List.map (fun section => (section, names_in endpoints section)) l).
  { intros l Hl. apply map_ext_in. intros section Hs%list_elem_of_In.
    rewrite names_in_snoc.
    destruct (String.eqb_spec (section_of kv.2) section) as [<-|]; [done|].
    by rewrite app_nil_r. }
  destruct (decide _) as [Hin|Hnin].
  - pose proof (sections_NoDup endpoints) as Hnd.
    induction (sections endpoints) as [|section l IHl]; [by apply elem_of_nil in Hin|].
    apply NoDup_cons in Hnd as [Hsec Hnd]. cbn [List.map concat snd].
    destruct (decide (section_of kv.2 = section)) as [Heq|Hne].
    + subst section. rewrite (Hother l Hsec), names_in_snoc, String.eqb_refl.
      rewrite <- !app_assoc. apply Permutation_app_head, Permutation_app_comm.
    + rewrite names_in_snoc. apply String.eqb_neq in Hne. rewrite Hne, app_nil_r.
      rewrite <- app_assoc. apply Permutation_app_head, IHl; [|done].
      apply elem_of_cons in Hin as [Heq|?]; [|done].
      apply String.eqb_neq in Hne. congruence.
  - rewrite List.map_app, (Hother _ Hnin). cbn [List.map].
    rewrite !List.map_app, concat_app. cbn [List.map concat snd].
    by rewrite names_in_snoc, String.eqb_refl, names_in_fresh, app_nil_r.
Qed.

Section Unknown.

Context (load : string -> list Cheerio.node) (render : list Cheerio.node -> string)
        (origin : list event -> string -> error + string)
        (baseUrl : string) (endpoints : JsObject.obj string).

Lemma get_unknown element :
  JsObject.own endpoints element = None -> JsObject.inherited element = false ->
  truthy (JsObject.get endpoints element) = false.
Proof. intros Hown Hproto. unfold JsObject.get. by rewrite Hown, Hproto. Qed.

(** What holds of C1: a name that is neither a key of the table nor a
    member of [Object.prototype] is reported as unknown, with
    [InvalidParams], before anything is sent; the message lists the
    sections in table order and, after each, its names in table order. *)
Lemma fetchDoc_unknown_element element s :
  groupable endpoints = true ->
  JsObject.own endpoints element = None -> JsObject.inherited element = false ->
  fetchDoc load render origin AllSections baseUrl endpoints element s
  = (inl (McpError InvalidParams
            ("Unknown element: " +:+ element +:+ Json.newline +:+ Json.newline
             +:+ "Available elements by section:" +:+ Json.newline
             +:+ Js.join Json.newline (List.map format_section (grouped endpoints)))),
     s).
Proof.
  intros Hok Hown Hproto.
  rewrite (fetch_unknown _ _ _ _ _ _ _ _ (get_unknown element Hown Hproto)).
  destruct (group_by_section_grouped endpoints Hok) as [Hgroups Hentries].
  unfold unknown_element, availableElements. by rewrite Hgroups, Hentries.
Qed.

(** The earlier revision lists the names in table order, without
    sections. *)
Lemma fetchDoc_unknown_element_flat element s :
  plain_keys endpoints = true ->
  JsObject.own endpoints element = None -> JsObject.inherited element = false ->
  fetchDoc load render origin InputsOnly baseUrl endpoints element s
  = (inl (McpError InvalidParams
            ("Unknown element: " +:+ element +:+ ". Available elements: "
             +:+ Js.join ", " (List.map fst endpoints))),
     s).
Proof.
  intros Hok Hown Hproto.
  rewrite (fetch_unknown _ _ _ _ _ _ _ _ (get_unknown element Hown Hproto)).
  unfold unknown_element. by rewrite (keys_plain endpoints Hok).
Qed.

End Unknown.

Section UnknownInProgram.

Context (load : string -> list Cheerio.node) (render : list Cheerio.node -> string)
        (origin : list event -> string -> error + string).

(** X1.  In the later revision a name that is neither a key of the
    endpoint table nor a member of [Object.prototype] is answered with
    [InvalidParams] before anything is sent or logged.  The message
    gives the sections in the order they first occur in the table and,
    after each, its names in table order; the names so listed are the
    names of the table, each once. *)
Theorem fetchDoc_lists_every_name element s :
  JsObject.own MarimoDocs.endpoints element = None ->
  JsObject.inherited element = false ->
  fetchDoc load render origin AllSections MarimoDocs.baseUrl MarimoDocs.endpoints element s
  = (inl (McpError InvalidParams
            ("Unknown element: " +:+ element +:+ Json.newline +:+ Json.newline
             +:+ "Available elements by section:" +:+ Json.newline
             +:+ Js.join Json.newline
                   (List.map format_section (grouped MarimoDocs.endpoints)))),
     s)
  /\ concat (List.map snd (grouped MarimoDocs.endpoints))
     ≡ₚ List.map fst MarimoDocs.endpoints
  /\ NoDup (List.map fst MarimoDocs.endpoints).
Proof.
  intros Hown Hproto. split; [|split].
  - apply fetchDoc_unknown_element; [vm_compute; reflexivity|done|done].
  - apply grouped_names.
  - apply (bool_decide_unpack _). vm_compute. reflexivity.
Qed.

End UnknownInProgram.

(** Both tables of the repository can be grouped, and their names are
    distinct. *)
Lemma revisions_groupable :
  groupable MarimoDocs.endpoints = true
  /\ NoDup (List.map fst MarimoDocs.endpoints)
  /\ plain_keys MarimoDocsInputs.endpoints = true
  /\ NoDup (List.map fst MarimoDocsInputs.endpoints).
Proof.
  repeat split; try (vm_compute; reflexivity);
    apply (bool_decide_unpack _); vm_compute; reflexivity.
Qed.

End GroupingFacts.

(** ** The statements above at concrete inputs *)

Module Witnesses.
Import Cheerio Server ServerFacts ExtractorFacts ScenarioFacts Examples.

Lemma fetchDoc_failure_is_internal_error_witness :
  exists s',
    fetchDoc SimpleHtml.load SimpleHtml.render refused
      MarimoDocs.revision MarimoDocs.baseUrl MarimoDocs.endpoints "slider" initial
    = (inl (McpError InternalError "Failed to fetch documentation for slider"), s')
    /\ Js.includes "Failed to fetch documentation for slider" "slider" = true.
Proof.
  apply (fetchDoc_failure_is_internal_error SimpleHtml.load SimpleHtml.render refused
           MarimoDocs.program "slider" "/inputs/slider/" initial).
  - left.
  - reflexivity.
  - exact I.
Defined.

Lemma fetchDoc_sends_one_get_witness :
  gets (trace (snd (fetchDoc SimpleHtml.load SimpleHtml.render refused AllSections
                      "https://x/api/" Scenario.endpoints "slider" initial)))
  = ["https://x/api/inputs/slider/"].
Proof.
  apply (proj1 (fetchDoc_sends_one_get SimpleHtml.load SimpleHtml.render refused)
           "https://x/api/" Scenario.endpoints "slider" "/inputs/slider/" initial).
  - reflexivity.
  - discriminate.
  - reflexivity.
Defined.

Lemma parseParameters_by_rows_witness :
  parseParameters SimpleHtml.load SimpleHtml.render table_section
  = [ {| param_name := "n"; param_description := "d"; param_required := false |};
      {| param_name := "n"; param_description := "d"; param_required := true |} ].
Proof.
  apply (proj1 (proj2 (parseParameters_by_rows SimpleHtml.load SimpleHtml.render
                         table_section))).
  reflexivity.
Defined.

Lemma extract_without_content_witness :
  extract SimpleHtml.load SimpleHtml.render bare_page
  = {| title := EmptyString; description := EmptyString;
       parameters := []; examples := [] |}.
Proof.
  apply (extract_without_content SimpleHtml.load SimpleHtml.render bare_page).
  reflexivity.
Defined.

Lemma fetch_slider_scenario_witness :
  fst (fetchDoc SimpleHtml.load SimpleHtml.render (serving Scenario.page) AllSections
         Scenario.baseUrl Scenario.endpoints "slider" initial)
  = inr {| title := "Slider"; description := "A slider.";
           parameters := []; examples := [] |}.
Proof.
  apply (fetch_slider_scenario SimpleHtml.load SimpleHtml.render (serving Scenario.page)
           AllSections initial); reflexivity.
Defined.

Local Abbreviation call :=
  (call_tool Js.lower_ascii SimpleHtml.load SimpleHtml.render refused
     MarimoDocs.revision MarimoDocs.baseUrl MarimoDocs.endpoints).

Lemma call_tool_validation_witness :
  call no_arguments initial = (inl (McpError InvalidParams "Missing arguments"), initial)
  /\ call no_element initial
     = (inl (McpError InvalidParams "Missing element parameter"), initial)
  /\ call unknown_tool initial
     = (inl (McpError MethodNotFound "Unknown tool: unknown_tool"), initial).
Proof.
  split; [|split].
  - apply (proj1 (call_tool_validation _ _ _ _ _ _ _ no_arguments initial)). reflexivity.
  - apply (proj1 (proj2 (call_tool_validation _ _ _ _ _ _ _ no_element initial)) []);
      reflexivity.
  - apply (proj2 (proj2 (call_tool_validation _ _ _ _ _ _ _ unknown_tool initial))
             [("element", "slider")]); [reflexivity|discriminate|discriminate].
Defined.

(** C8 as stated fails where a request names no known tool and carries
    no arguments: the check of the arguments comes first, and the
    request is answered with [InvalidParams]. *)
Lemma unknown_tool_without_arguments :
  fst (call unknown_tool_bare initial) = inl (McpError InvalidParams "Missing arguments")
  /\ ~ (exists message,
          fst (call unknown_tool_bare initial) = inl (McpError MethodNotFound message)).
Proof.
  split; [reflexivity|]. intros [message H]. discriminate H.
Qed.

Lemma call_tool_empty_string_witness :
  call empty_element initial
  = (inl (McpError InvalidParams "Missing element parameter"), initial)
  /\ call empty_query initial
     = (inl (McpError InvalidParams "Missing query parameter"), initial).
Proof.
  split.
  - apply (proj1 (call_tool_empty_string _ _ _ _ _ _ _ empty_element
                    [("element", EmptyString)] initial eq_refl)); reflexivity.
  - apply (proj2 (call_tool_empty_string _ _ _ _ _ _ _ empty_query
                    [("query", EmptyString)] initial eq_refl)); reflexivity.
Defined.

Lemma fetchDoc_lists_every_name_witness :
  fst (fetchDoc SimpleHtml.load SimpleHtml.render refused AllSections
         MarimoDocs.baseUrl MarimoDocs.endpoints "sliders" initial)
  = inl (McpError InvalidParams
           ("Unknown element: sliders" +:+ Json.newline +:+ Json.newline
            +:+ "Available elements by section:" +:+ Json.newline
            +:+ Js.join Json.newline
                  (List.map format_section (Spec.grouped MarimoDocs.endpoints)))).
Proof.
  pose proof (GroupingFacts.fetchDoc_lists_every_name
                SimpleHtml.load SimpleHtml.render refused "sliders" initial
                eq_refl eq_refl) as [H _].
  by rewrite H.
Defined.

Lemma replace_dup_slashes_meets_spec_witness :
  Js.replace_dup_slashes "https://x/api//inputs///slider/"
  = Spec.collapse_slashes "https://x/api//inputs///slider/".
Proof.
  apply (UrlFacts.replace_dup_slashes_meets_spec "https://x/api//inputs///slider/").
  reflexivity.
Defined.

Lemma cache_never_written_nor_read_witness :
  gets (trace (snd (fetchDoc SimpleHtml.load SimpleHtml.render (serving Scenario.page)
                      MarimoDocs.revision MarimoDocs.baseUrl MarimoDocs.endpoints
                      "slider" initial)))
  = ["https://docs.marimo.io/api/inputs/slider/"].
Proof.
  apply (proj2 (proj2 (proj2 (proj2
           (cache_never_written_nor_read Js.lower_ascii SimpleHtml.load SimpleHtml.render
              (serving Scenario.page)
              MarimoDocs.revision MarimoDocs.baseUrl MarimoDocs.endpoints))))
           "slider" (extract SimpleHtml.load SimpleHtml.render Scenario.page) initial).
  vm_compute. reflexivity.
Defined.

End Witnesses.

(** ** More on the replacement of repeated slashes *)

Module SlashFacts.
Import Js Spec Chars UrlFacts.

(** The replacement keeps the first character of the string. *)
Lemma replace_head c t :
  exists r, replace_dup_slashes_from false (String c t) = String c r.
Proof.
  rewrite replace_from_false. destruct (_ && _); eauto.
Qed.

Lemma replace_true_head s :
  startsWith (replace_dup_slashes_from true s) "/" = false.
Proof.
  induction s as [|c t IH]; [done|]. rewrite replace_from_true.
  destruct (Ascii.eqb c slash) eqn:Hc; [done|].
  destruct (replace_head c t) as [r ->]. rewrite JsFacts.startsWith_cons.
  unfold slash in Hc. by rewrite Hc.
Qed.

Lemma replace_true_double_head s :
  startsWith (replace_dup_slashes_from true s) "//" = false.
Proof.
  pose proof (replace_true_head s) as H.
  destruct (replace_dup_slashes_from true s) as [|c r]; [done|].
  rewrite JsFacts.startsWith_cons in *. apply andb_false_iff in H as [->|H]; done.
Qed.

(** Two slashes open the result exactly when they open the string. *)
Lemma replace_double_head s :
  startsWith (replace_dup_slashes_from false s) "//" = startsWith s "//".
Proof.
  destruct s as [|c t]; [done|]. rewrite replace_from_false.
  destruct (negb (Ascii.eqb c colon) && startsWith t "//") eqn:Hm.
  - apply andb_true_iff in Hm as [_ Ht]. rewrite !JsFacts.startsWith_cons.
    destruct t as [|c1 t1]; [done|]. rewrite JsFacts.startsWith_cons in Ht |- *.
    apply andb_true_iff in Ht as [-> _]. cbn [andb].
    change (Ascii.eqb slash "/") with true. done.
  - rewrite !JsFacts.startsWith_cons. f_equal.
    destruct t as [|c1 t1]; [done|].
    destruct (replace_head c1 t1) as [r ->]. by rewrite !JsFacts.startsWith_cons.
Qed.

Lemma replace_settled s :
  settled (replace_dup_slashes_from false s) = true
  /\ settled (replace_dup_slashes_from true s) = true.
Proof.
  induction s as [|c t [IHf IHt]]; [done|].
  assert (Hf : settled (replace_dup_slashes_from false (String c t)) = true).
  { rewrite replace_from_false.
    destruct (negb (Ascii.eqb c colon) && startsWith t "//") eqn:Hm.
    - cbn [settled]. rewrite replace_true_double_head, IHt.
      rewrite JsFacts.startsWith_cons, replace_true_head.
      by rewrite !andb_false_r.
    - cbn [settled]. by rewrite replace_double_head, Hm, IHf. }
  split; [done|]. rewrite replace_from_true. by destruct (Ascii.eqb c slash).
Qed.

(** A string the pattern does not match is left as it is. *)
Lemma replace_of_settled s :
  settled s = true -> replace_dup_slashes_from false s = s.
Proof.
  induction s as [|c t IH]; [done|]. cbn [settled].
  intros [Hm Ht]%andb_true_iff. apply negb_true_iff in Hm.
  by rewrite replace_from_false, Hm, IH.
Qed.

Lemma includes_cons_false c s needle :
  includes (String c s) needle = false ->
  startsWith (String c s) needle = false /\ includes s needle = false.
Proof. cbn [includes]. by intros ?%orb_false_iff. Qed.

Lemma settled_without_double s : includes s "//" = false -> settled s = true.
Proof.
  induction s as [|c t IH]; [done|]. intros [_ Ht]%includes_cons_false.
  cbn [settled]. rewrite (IH Ht), andb_true_r.
  destruct t as [|c1 t1]; [by rewrite andb_false_r|].
  apply includes_cons_false in Ht as [-> _]. by rewrite andb_false_r.
Qed.

Lemma replace_without_slashes s :
  without_slashes (replace_dup_slashes_from false s) = without_slashes s
  /\ without_slashes (replace_dup_slashes_from true s) = without_slashes s.
Proof.
  induction s as [|c t [IHf IHt]]; [done|].
  assert (Hf : without_slashes (replace_dup_slashes_from false (String c t))
               = without_slashes (String c t)).
  { rewrite replace_from_false. destruct (_ && _); cbn [without_slashes].
    - change (Ascii.eqb slash slash) with true. cbv iota. by rewrite IHt.
    - by rewrite IHf. }
  split; [done|]. rewrite replace_from_true.
  destruct (Ascii.eqb c slash) eqn:Hc; [|done].
  cbn [without_slashes]. by rewrite Hc.
Qed.

Lemma replace_length s :
  (String.length (replace_dup_slashes_from false s) <= String.length s)%nat
  /\ (String.length (replace_dup_slashes_from true s)
      + (if startsWith s "/" then 1 else 0) <= String.length s)%nat.
Proof.
  induction s as [|c t [IHf IHt]]; [done|].
  assert (Hf : (String.length (replace_dup_slashes_from false (String c t))
                <= String.length (String c t))%nat).
  { rewrite replace_from_false.
    destruct (negb (Ascii.eqb c colon) && startsWith t "//") eqn:Hm;
      cbn [String.length]; [|lia].
    apply andb_true_iff in Hm as [_ Ht].
    assert (Hs : startsWith t "/" = true).
    { destruct t as [|c1 t1]; [done|]. rewrite JsFacts.startsWith_cons in Ht |- *.
      by apply andb_true_iff in Ht as [-> _]. }
    rewrite Hs in IHt. lia. }
  split; [done|]. rewrite replace_from_true, JsFacts.startsWith_cons.
  unfold slash. destruct (Ascii.eqb c "/"); cbn [andb String.length] in *.
  - change (startsWith t "") with true. cbv iota.
    destruct (startsWith t "/"); lia.
  - lia.
Qed.

(** X3.  The clean-up of the URL only ever deletes slashes: the other
    characters stay, in their order, and the result is no longer than
    the string.  In the result no character other than a colon is
    followed by two slashes; a string that is already so, such as one
    without two slashes in a row, is returned as it is, and cleaning a
    cleaned string changes nothing. *)
Theorem replace_dup_slashes_only_drops_slashes s :
  without_slashes (replace_dup_slashes s) = without_slashes s
  /\ (String.length (replace_dup_slashes s) <= String.length s)%nat
  /\ settled (replace_dup_slashes s) = true
  /\ (settled s = true -> replace_dup_slashes s = s)
  /\ (includes s "//" = false -> replace_dup_slashes s = s)
  /\ replace_dup_slashes (replace_dup_slashes s) = replace_dup_slashes s.
Proof.
  unfold replace_dup_slashes. split; [apply replace_without_slashes|].
  split; [apply replace_length|]. split; [apply replace_settled|].
  split; [apply replace_of_settled|]. split.
  - intros H. by apply replace_of_settled, settled_without_double.
  - apply replace_of_settled, replace_settled.
Qed.

End SlashFacts.

(** ** The section of a path *)

Module SectionFacts.
Import Js Server.

Lemma includes_slash_cons c s :
  includes (String c s) "/" = Ascii.eqb c "/" || includes s "/".
Proof. cbn [includes]. by rewrite JsFacts.startsWith_cons, andb_true_r. Qed.

(** A piece without the separator is the first piece of what it opens. *)
Lemma split_piece a t :
  includes a "/" = false ->
  split slash (a +:+ String slash t) = a :: split slash t.
Proof.
  induction a as [|c a IH]; intros H.
  - cbn. reflexivity.
  - rewrite includes_slash_cons in H. apply orb_false_iff in H as [Hc Ha].
    rewrite JsFacts.append_cons. cbn [split]. unfold slash at 1. rewrite Hc.
    by rewrite (IH Ha).
Qed.

Lemma split_whole a : includes a "/" = false -> split slash a = [a].
Proof.
  induction a as [|c a IH]; intros H; [done|].
  rewrite includes_slash_cons in H. apply orb_false_iff in H as [Hc Ha].
  cbn [split]. unfold slash at 1. by rewrite Hc, (IH Ha).
Qed.

Lemma or_else_truthy a b : a <> EmptyString -> or_else a b = a.
Proof. by destruct a. Qed.

(** X4.  The section of a path is its second piece between slashes,
    whatever stands before the first slash: for a path that opens with
    a slash that is the first segment, for one that does not it is the
    segment after the first.  A path without a slash, or with nothing
    between its first two slashes or after its only one, is in the
    section other. *)
Theorem section_of_second_piece a b rest :
  includes a "/" = false -> includes b "/" = false ->
  (b <> EmptyString ->
   section_of (a +:+ "/" +:+ b +:+ "/" +:+ rest) = b
   /\ section_of (a +:+ "/" +:+ b) = b)
  /\ section_of a = "other"
  /\ section_of (a +:+ "/") = "other"
  /\ section_of (a +:+ "//" +:+ rest) = "other".
Proof.
  intros Ha Hb. unfold section_of. split; [|split; [|split]].
  - intros Hne. split.
    + change (a +:+ "/" +:+ b +:+ "/" +:+ rest)
        with (a +:+ String slash (b +:+ String slash rest)).
      rewrite (split_piece a _ Ha), (split_piece b _ Hb). cbn [lookup list_lookup].
      by apply or_else_truthy.
    + change (a +:+ "/" +:+ b) with (a +:+ String slash b).
      rewrite (split_piece a _ Ha), (split_whole b Hb). cbn [lookup list_lookup].
      by apply or_else_truthy.
  - by rewrite (split_whole a Ha).
  - change (a +:+ "/") with (a +:+ String slash EmptyString).
    by rewrite (split_piece a _ Ha).
  - change (a +:+ "//" +:+ rest) with (a +:+ String slash (String slash rest)).
    rewrite (split_piece a _ Ha). cbn [split]. change (Ascii.eqb slash slash) with true.
    done.
Qed.

End SectionFacts.

(** ** Trimmed text *)

Module TrimFacts.
Import Js Chars.

Lemma append_assoc (a b c : string) : (a +:+ b) +:+ c = a +:+ b +:+ c.
Proof. induction a as [|x a IH]; [done|]. by rewrite !JsFacts.append_cons, IH. Qed.

Lemma append_not_empty a b : b <> EmptyString -> a +:+ b <> EmptyString.
Proof. by destruct a. Qed.

Lemma append_empty_r (a : string) : a +:+ EmptyString = a.
Proof. induction a as [|x a IH]; [done|]. by rewrite JsFacts.append_cons, IH. Qed.

Lemma append_length (a b : string) :
  String.length (a +:+ b) = (String.length a + String.length b)%nat.
Proof. induction a as [|x a IH]; [done|]. rewrite JsFacts.append_cons. cbn. by rewrite IH. Qed.

Lemma ends_with_split s w : ends_with s w = true <-> exists front, s = front +:+ w.
Proof.
  induction s as [|c s IH].
  - cbn [ends_with]. rewrite orb_false_r, String.eqb_eq. split.
    + intros <-. by exists EmptyString.
    + intros [front H]. destruct front; [done|discriminate].
  - cbn [ends_with]. rewrite orb_true_iff, String.eqb_eq, IH. split.
    + intros [<-|[front ->]]; [by exists EmptyString|by exists (String c front)].
    + intros [[|d front] H]; [by left|]. right. injection H as -> ->. by exists front.
Qed.

(** A head of a string that reaches into what follows. *)
Lemma startsWith_append_cases x y w :
  startsWith (x +:+ y) w = true ->
  startsWith x w = true
  \/ exists w', w = x +:+ w' /\ w' <> EmptyString /\ startsWith y w' = true.
Proof.
  revert w. induction x as [|c x IH]; intros w H.
  - destruct w as [|d w]; [by left|]. right. by exists (String d w).
  - destruct w as [|d w]; [by left|].
    rewrite JsFacts.append_cons, JsFacts.startsWith_cons in H.
    apply andb_true_iff in H as [Hc H]. apply Ascii.eqb_eq in Hc as ->.
    destruct (IH w H) as [Hx|(w' & -> & Hne & Hy)].
    + left. by rewrite JsFacts.startsWith_cons, Ascii.eqb_refl.
    + right. by exists w'.
Qed.

(** A tail of a string that reaches into what precedes. *)
Lemma ends_with_append_cases x y w :
  ends_with (x +:+ y) w = true ->
  ends_with y w = true
  \/ exists w', w = w' +:+ y /\ w' <> EmptyString /\ ends_with x w' = true.
Proof.
  induction x as [|c x IH]; [by left|].
  rewrite JsFacts.append_cons. cbn [ends_with]. intros [H|H]%orb_true_iff.
  - apply String.eqb_eq in H as <-. right. exists (String c x).
    split; [done|]. split; [done|]. by rewrite String.eqb_refl.
  - destruct (IH H) as [Hy|(w' & -> & Hne & Hx)]; [by left|].
    right. exists w'. by rewrite Hx, orb_true_r.
Qed.

Lemma ends_with_append front s w : ends_with s w = true -> ends_with (front +:+ s) w = true.
Proof.
  intros [p ->]%ends_with_split. apply ends_with_split. exists (front +:+ p).
  by rewrite append_assoc.
Qed.

(** *** The white space *)

Lemma white_elem w : white w = true <-> In w white_space.
Proof.
  unfold white. rewrite existsb_exists. split.
  - by intros (x & Hin & ->%String.eqb_eq).
  - intros H. exists w. by rewrite String.eqb_refl.
Qed.

Ltac each_white H :=
  apply white_elem in H; cbn [white_space In] in H;
  repeat (destruct H as [H|H]; [subst|]); [..|done].

Lemma white_not_empty w : white w = true -> w <> EmptyString.
Proof. by intros H ->. Qed.

(** The white space characters are of one, two or three bytes, and none
    opens another. *)
Lemma white_bytes w :
  white w = true ->
  (exists c1, w = String c1 EmptyString)
  \/ (exists c1 c2,
        w = String c1 (String c2 EmptyString) /\ white (String c1 EmptyString) = false)
  \/ (exists c1 c2 c3,
        w = String c1 (String c2 (String c3 EmptyString))
        /\ white (String c1 EmptyString) = false
        /\ white (String c1 (String c2 EmptyString)) = false).
Proof.
  intros H. each_white H;
    first [ left; eexists; reflexivity
          | right; left; do 2 eexists; split; reflexivity
          | right; right; do 3 eexists; split; [|split]; reflexivity ].
Qed.

(** A line feed is white space on its own and part of no other. *)
Lemma white_newline w a b :
  white w = true -> w = a +:+ Json.newline +:+ b -> a = EmptyString /\ b = EmptyString.
Proof.
  intros H. each_white H; intros Heq;
    destruct a as [|? [|? [|? [|? ?]]]]; destruct b as [|? ?];
    try done; cbv in Heq; discriminate Heq.
Qed.

Lemma trimStart_white w rest :
  white w = true -> trimStart (w +:+ rest) = trimStart rest.
Proof.
  intros H. destruct (white_bytes w H) as [[c1 ->]|[(c1 & c2 & -> & H1)|(c1 & c2 & c3 & -> & H1 & H2)]].
  - change (trimStart (String c1 rest) = trimStart rest).
    cbn [trimStart]. by rewrite H.
  - change (trimStart (String c1 (String c2 rest)) = trimStart rest).
    cbn [trimStart]. by rewrite H1, H.
  - change (trimStart (String c1 (String c2 (String c3 rest))) = trimStart rest).
    cbn [trimStart]. by rewrite H1, H2, H.
Qed.

(** What [trimStart] returns opens with no white space. *)
Lemma trimStart_head s w : white w = true -> startsWith (trimStart s) w = false.
Proof.
  intros Hw. remember (String.length s) as n eqn:Hn.
  revert s Hn. induction (lt_wf n) as [n _ IH]. intros s ->.
  assert (Hrec : forall r, (String.length r < String.length s)%nat ->
            startsWith (trimStart r) w = false) by (intros r Hr; by apply (IH _ Hr)).
  assert (Hstay : forall t, t = s ->
            (forall w', white w' = true -> startsWith t w' = false) ->
            startsWith t w = false) by (intros t _ H; by apply H).
  destruct s as [|c1 s1]; [by destruct w|]. cbn [trimStart].
  destruct (white (String c1 EmptyString)) eqn:H1; [apply Hrec; cbn; lia|].
  assert (Hkeep : forall s', (forall w', white w' = true ->
            startsWith (String c1 s') w' = true ->
            (exists c2 s2, s' = String c2 s2 /\
               (white (String c1 (String c2 EmptyString)) = true
                \/ exists c3 s3, s2 = String c3 s3 /\
                     white (String c1 (String c2 (String c3 EmptyString))) = true)))).
  { intros s' w' Hw' Hs.
    destruct (white_bytes w' Hw') as [[d1 ->]|[(d1 & d2 & -> & _)|(d1 & d2 & d3 & -> & _ & _)]].
    - rewrite JsFacts.startsWith_cons in Hs. apply andb_true_iff in Hs as [->%Ascii.eqb_eq _].
      congruence.
    - destruct s' as [|c2 s2]; [by rewrite JsFacts.startsWith_cons, andb_false_r in Hs|].
      rewrite !JsFacts.startsWith_cons in Hs.
      apply andb_true_iff in Hs as [->%Ascii.eqb_eq [->%Ascii.eqb_eq _]%andb_true_iff].
      exists d2, s2. split; [done|]. by left.
    - destruct s' as [|c2 [|c3 s3]];
        [by rewrite JsFacts.startsWith_cons, andb_false_r in Hs
        |by rewrite !JsFacts.startsWith_cons, !andb_false_r in Hs|].
      rewrite !JsFacts.startsWith_cons in Hs.
      apply andb_true_iff in Hs as [->%Ascii.eqb_eq Hs].
      apply andb_true_iff in Hs as [->%Ascii.eqb_eq Hs].
      apply andb_true_iff in Hs as [->%Ascii.eqb_eq _].
      exists d2, (String d3 s3). split; [done|]. right. by exists d3, s3. }
  destruct s1 as [|c2 s2].
  { destruct (startsWith _ w) eqn:Hs; [|done].
    by destruct (Hkeep _ w Hw Hs) as (? & ? & ? & _). }
  destruct (white (String c1 (String c2 EmptyString))) eqn:H2; [apply Hrec; cbn; lia|].
  destruct s2 as [|c3 s3].
  { destruct (startsWith _ w) eqn:Hs; [|done].
    destruct (Hkeep _ w Hw Hs) as (? & ? & [= <- <-] & [H|(? & ? & ? & _)]); congruence. }
  destruct (white (String c1 (String c2 (String c3 EmptyString)))) eqn:H3;
    [apply Hrec; cbn; lia|].
  destruct (startsWith _ w) eqn:Hs; [|done].
  destruct (Hkeep _ w Hw Hs) as (? & ? & [= <- <-] & [H|(? & ? & [= <- <-] & H)]); congruence.
Qed.

(** What [trimStart] returns is the end of the string. *)
Lemma trimStart_tail s : exists front, s = front +:+ trimStart s.
Proof.
  remember (String.length s) as n eqn:Hn.
  revert s Hn. induction (lt_wf n) as [n _ IH]. intros s ->.
  assert (Hrec : forall front r, s = front +:+ r ->
            (String.length r < String.length s)%nat ->
            exists front', s = front' +:+ trimStart r).
  { intros front r -> Hr. destruct (IH _ Hr r eq_refl) as [f Hf].
    exists (front +:+ f). by rewrite append_assoc, <- Hf. }
  destruct s as [|c1 s1]; [by exists EmptyString|]. cbn [trimStart].
  destruct (white _); [apply (Hrec (String c1 EmptyString)); [done|cbn; lia]|].
  destruct s1 as [|c2 s2]; [by exists EmptyString|].
  destruct (white _); [apply (Hrec (String c1 (String c2 EmptyString))); [done|cbn; lia]|].
  destruct s2 as [|c3 s3]; [by exists EmptyString|].
  destruct (white _); [|by exists EmptyString].
  apply (Hrec (String c1 (String c2 (String c3 EmptyString)))); [done|cbn; lia].
Qed.

Lemma blank_white w rest : white w = true -> blank rest = true -> blank (w +:+ rest) = true.
Proof. intros Hw. unfold blank. by rewrite (trimStart_white w rest Hw). Qed.

(** [trimEnd] cuts white space off, and cuts all of it. *)
Lemma trimEnd_split s : exists b, s = trimEnd s +:+ b /\ blank b = true.
Proof.
  induction s as [|c s (b & IH & Hb)]; [by exists EmptyString|].
  cbn [trimEnd]. destruct (blank (String c s)) eqn:H; [by exists (String c s)|].
  exists b. by rewrite JsFacts.append_cons, <- IH.
Qed.

Lemma trimEnd_shortest s : forall q r,
  s = q +:+ r -> blank r = true -> exists q', q = trimEnd s +:+ q'.
Proof.
  induction s as [|c s IH]; intros q r Hs Hr.
  - exists EmptyString. by destruct q.
  - cbn [trimEnd]. destruct (blank (String c s)) eqn:H; [by exists q|].
    destruct q as [|d q];
      [change (EmptyString +:+ r) with r in Hs; subst r; congruence|].
    injection Hs as <- Hs. destruct (IH q r Hs Hr) as [q' ->]. by exists q'.
Qed.

(** What [trimEnd] returns closes with no white space. *)
Lemma trimEnd_end s w : white w = true -> ends_with (trimEnd s) w = false.
Proof.
  intros Hw. destruct (ends_with _ w) eqn:He; [|done]. exfalso.
  apply ends_with_split in He as [q Hq].
  destruct (trimEnd_split s) as (b & Hs & Hb).
  destruct (trimEnd_shortest s q (w +:+ b)) as [q' Hq'].
  - by rewrite Hs at 1; rewrite Hq, append_assoc.
  - by apply blank_white.
  - rewrite Hq' in Hq. apply (f_equal String.length) in Hq.
    rewrite !append_length in Hq. destruct w; [done|]. cbn in Hq. lia.
Qed.

Lemma bare_intro s :
  (forall w, white w = true -> startsWith s w = false /\ ends_with s w = false) ->
  bare s = true.
Proof.
  intros H. apply forallb_forall. intros w Hw%white_elem.
  by destruct (H w Hw) as [-> ->].
Qed.

Lemma bare_elim s w :
  bare s = true -> white w = true -> startsWith s w = false /\ ends_with s w = false.
Proof.
  intros H Hw%white_elem. unfold bare in H. rewrite forallb_forall in H.
  specialize (H w Hw). apply andb_true_iff in H as [H1 H2].
  by apply negb_true_iff in H1, H2.
Qed.

(** The result of [trim] has no white space at either end. *)
Lemma trim_bare s : bare (trim s) = true.
Proof.
  apply bare_intro. intros w Hw. unfold trim. split; [by apply trimStart_head|].
  destruct (ends_with _ w) eqn:He; [|done].
  destruct (trimStart_tail (trimEnd s)) as [front Hf].
  apply (ends_with_append front) in He. rewrite <- Hf in He.
  by rewrite (trimEnd_end s w Hw) in He.
Qed.

(** A no-break space, a line separator and a byte order mark go like
    a blank; a zero width space, which is no white space, stays. *)
Example trim_beyond_ascii :
  trim (bytes [194; 160] +:+ " Slider" +:+ bytes [226; 128; 168; 239; 187; 191]) = "Slider"
  /\ trim (bytes [226; 128; 139] +:+ "Slider ") = bytes [226; 128; 139] +:+ "Slider".
Proof. split; reflexivity. Qed.

(** Pieces that are bare and not empty, joined by a blank line, make a
    bare string. *)
Lemma join_bare l :
  Forall (fun x => x <> EmptyString /\ bare x = true) l ->
  l <> [] ->
  join (Json.newline +:+ Json.newline) l <> EmptyString
  /\ bare (join (Json.newline +:+ Json.newline) l) = true.
Proof.
  induction 1 as [|x l [Hx Hb] Hl IH]; [done|]. intros _.
  destruct l as [|y l]; [done|]. destruct IH as [Hne Hj]; [done|].
  set (J := join (Json.newline +:+ Json.newline) (y :: l)) in *.
  change (join _ (x :: y :: l)) with (x +:+ (Json.newline +:+ Json.newline) +:+ J).
  split; [by destruct x|]. apply bare_intro. intros w Hw.
  destruct (bare_elim x w Hb Hw) as [Hxs _]. destruct (bare_elim J w Hj Hw) as [_ Hje].
  split.
  - destruct (startsWith (x +:+ _) w) eqn:Hs; [|done]. exfalso.
    apply startsWith_append_cases in Hs as [Hs|(w' & -> & Hne' & Hs)]; [congruence|].
    destruct w' as [|d w']; [done|].
    rewrite append_assoc in Hs.
    change (Json.newline +:+ ?r) with (String (ascii_of_nat 10) r) in Hs.
    rewrite JsFacts.startsWith_cons in Hs. apply andb_true_iff in Hs as [<-%Ascii.eqb_eq _].
    by destruct (white_newline _ x w' Hw eq_refl) as [-> _].
  - destruct (ends_with (x +:+ _) w) eqn:He; [|done]. exfalso.
    rewrite <- append_assoc in He.
    apply ends_with_append_cases in He as [He|(w' & -> & Hne' & He)]; [congruence|].
    rewrite <- append_assoc in He.
    apply ends_with_append_cases in He as [He|(w'' & -> & _ & _)].
    + cbn [ends_with Json.newline] in He. rewrite orb_false_r in He.
      apply orb_true_iff in He as [He|He]; apply String.eqb_eq in He; [|congruence].
      destruct (white_newline _ EmptyString J Hw) as [_ HJ]; [by rewrite <- He|done].
    + destruct (white_newline _ w'' J Hw) as [_ HJ]; [by rewrite append_assoc|done].
Qed.

End TrimFacts.

(** ** What the extractor puts in a record *)

Module RecordFacts.
Import Cheerio Server Js Chars TrimFacts.

Section Facts.

Context (load : string -> list node) (render : list node -> string).

Lemma trimmed_texts_clean sel :
  Forall (fun x => x <> EmptyString /\ bare x = true) (trimmed_texts sel).
Proof.
  unfold trimmed_texts. apply Forall_forall. intros x Hx%list_elem_of_In.
  apply filter_In in Hx as [Hin Hlen]. apply in_map_iff in Hin as (el & <- & _).
  split; [|apply trim_bare]. intros Heq. by rewrite Heq in Hlen.
Qed.

Lemma parse_row_clean doc row :
  Forall (fun p => bare (param_name p) = true /\ bare (param_description p) = true)
    (parse_row doc row).
Proof.
  unfold parse_row. destruct (2 <=? _)%nat; [|constructor].
  repeat constructor; apply trim_bare.
Qed.

(** X5.  Every text of an extracted record is trimmed: the title, the
    description, each example, and the name and the description of each
    parameter have no white space at the head and none at the end, be
    it a blank, a line break, a no-break space or any other white space
    of ECMAScript.  No example is empty. *)
Theorem extract_texts_trimmed data :
  let doc := extract load render data in
  bare (title doc) = true
  /\ bare (description doc) = true
  /\ Forall (fun example => example <> EmptyString /\ bare example = true)
       (examples doc)
  /\ Forall (fun p => bare (param_name p) = true /\ bare (param_description p) = true)
       (parameters doc).
Proof.
  cbn zeta. unfold extract. cbn [title description examples parameters].
  split; [apply trim_bare|]. split; [|split; [apply trimmed_texts_clean|]].
  - match goal with |- context [trimmed_texts ?sel] =>
      pose proof (trimmed_texts_clean sel) as Hclean;
      destruct (trimmed_texts sel) as [|x l] eqn:Hl end; [reflexivity|].
    by destruct (join_bare (x :: l) Hclean).
  - destruct (0 <? _)%nat; [|constructor]. unfold parseParameters.
    apply Forall_forall. intros p Hp%list_elem_of_In.
    apply in_flat_map in Hp as (row & _ & Hp).
    pose proof (parse_row_clean (load (or_else (default EmptyString
      (html render (first (find (load data) (select (load data) [Class "md-content"])
         [Class "doc-children"])))) EmptyString)) row) as Hrow.
    rewrite Forall_forall in Hrow. apply Hrow. by apply list_elem_of_In.
Qed.

End Facts.
End RecordFacts.

(** ** Every outcome of a fetch, and the requests of a search *)

Module OutcomeFacts.
Import Cheerio Server ServerFacts Kept.

Lemma startsWith_append s t : Js.startsWith (s +:+ t) s = true.
Proof.
  induction s as [|c s IH]; [done|].
  by rewrite JsFacts.append_cons, JsFacts.startsWith_cons, Ascii.eqb_refl, IH.
Qed.

(** The loop over the rows can fail in one way only. *)
Lemma fold_group_step_error l : forall acc e,
  (forall e', acc = inl e' -> e' = not_a_function) ->
  fold_left group_step l acc = inl e -> e = not_a_function.
Proof.
  induction l as [|kv l IH]; intros acc e Hacc H; [by apply Hacc|].
  cbn [fold_left] in H. apply (IH _ e) in H; [done|].
  intros e'. unfold group_step. destruct acc as [e0|groups]; [by intros [= <-]; apply Hacc|].
  destruct (JsObject.get groups _); [done|by intros [= <-]|done].
Qed.

Lemma unknown_element_kinds rev endpoints element :
  (exists message,
     unknown_element rev endpoints element = McpError InvalidParams message
     /\ Js.startsWith message ("Unknown element: " +:+ element) = true)
  \/ unknown_element rev endpoints element = not_a_function.
Proof.
  unfold unknown_element. destruct rev.
  - destruct (group_by_section endpoints) as [e|groups] eqn:Hg.
    + right. by apply (fold_group_step_error _ (inr []) e) in Hg.
    + left. eexists. split; [reflexivity|].
      rewrite <- TrimFacts.append_assoc. apply startsWith_append.
  - left. eexists. split; [reflexivity|].
    rewrite <- TrimFacts.append_assoc. apply startsWith_append.
Qed.

Section Facts.

Context (toLowerCase : string -> string)
        (load : string -> list node) (render : list node -> string)
        (origin : list event -> string -> error + string)
        (rev : revision) (baseUrl : string) (endpoints : JsObject.obj string).

Local Abbreviation fetch := (fetchDoc load render origin rev baseUrl endpoints).
Local Abbreviation search := (searchDocs toLowerCase load render origin rev baseUrl endpoints).
Local Abbreviation each := (fetch_each load render origin rev baseUrl endpoints).
Local Abbreviation call := (call_tool toLowerCase load render origin rev baseUrl endpoints).
Local Abbreviation answer := (response origin rev baseUrl endpoints).
Local Abbreviation url_of element :=
  (request_url rev baseUrl (JsObject.get endpoints element)).

(** The three ways a fetch can end, for any table, each with what
    brings it about. *)
Lemma fetch_outcomes element s :
  (truthy (JsObject.get endpoints element) = false
   /\ fetch element s = (inl (unknown_element rev endpoints element), s))
  \/ (truthy (JsObject.get endpoints element) = true
      /\ match answer element s with inl _ => True | inr data => data = EmptyString end
      /\ fst (fetch element s) = inl (failed_to_fetch element)
      /\ gets (trace (snd (fetch element s))) = gets (trace s) ++ [url_of element])
  \/ (truthy (JsObject.get endpoints element) = true
      /\ exists data,
           answer element s = inr data
           /\ data <> EmptyString
           /\ fst (fetch element s) = inr (extract load render data)
           /\ gets (trace (snd (fetch element s))) = gets (trace s) ++ [url_of element]).
Proof.
  destruct (truthy (JsObject.get endpoints element)) eqn:Ht.
  - right. pose proof (fetch_known_gets load render origin rev baseUrl endpoints
                         element s Ht) as Hg.
    rewrite (fetch_known load render origin rev baseUrl endpoints element s Ht) in *.
    destruct (answer element s) as [e|data]; [by left|].
    destruct data as [|c data]; [by left|].
    right. split; [done|]. exists (String c data). by cbn [Js.truthy_string fst].
  - left. split; [done|]. by apply fetch_unknown.
Qed.

(** No fetch ends in [MethodNotFound]. *)
Lemma fetch_not_method_not_found element s message :
  fst (fetch element s) <> inl (McpError MethodNotFound message).
Proof.
  destruct (fetch_outcomes element s)
    as [[_ H]|[(_ & _ & H & _)|(_ & data & _ & _ & H & _)]]; rewrite H; [|done..].
  cbn [fst]. by destruct (unknown_element_kinds rev endpoints element) as [(m & -> & _)| ->].
Qed.

Lemma search_succeeds query s :
  search query s
  = (inr (List.filter (matches_query toLowerCase query)
            (fetched (fst (each (JsObject.keys endpoints) s)))),
     snd (each (JsObject.keys endpoints) s)).
Proof. unfold searchDocs. by rewrite loop_each. Qed.

(** The GETs of a run over elements that all resolve: one each, in
    order. *)
Lemma each_gets elements : forall s,
  Forall (fun element => truthy (JsObject.get endpoints element) = true) elements ->
  gets (trace (snd (each elements s)))
  = gets (trace s) ++ List.map (fun element => url_of element) elements.
Proof.
  induction elements as [|element rest IH]; intros s Hall.
  - cbn. by rewrite app_nil_r.
  - apply Forall_cons in Hall as [Ht Hall]. cbn [fetch_each List.map].
    pose proof (fetch_known_gets load render origin rev baseUrl endpoints
                  element s Ht) as Hg.
    destruct (fetch element s) as [r s1]. cbn [snd] in Hg.
    match goal with |- context [each rest ?s2] =>
      specialize (IH s2 Hall); destruct (each rest s2) as [rs s3] end.
    cbn [snd] in *. rewrite IH. destruct r as [e|doc]; cbn [emit snd extend trace].
    + by rewrite gets_app, Hg, app_nil_r, <- app_assoc.
    + by rewrite Hg, <- app_assoc.
Qed.

Lemma each_length elements : forall s,
  length (fst (each elements s)) = length elements.
Proof.
  induction elements as [|element rest IH]; intros s; [done|].
  cbn [fetch_each]. destruct (fetch element s) as [r s1].
  match goal with |- context [each rest ?s2] =>
    specialize (IH s2); destruct (each rest s2) as [rs s3] end.
  cbn [fst length] in *. by rewrite IH.
Qed.

Lemma fetched_length outcomes : (length (fetched outcomes) <= length outcomes)%nat.
Proof.
  induction outcomes as [|[e|doc] outcomes IH]; [done| |].
  - change (fetched (inl e :: outcomes)) with (fetched outcomes). cbn [length]. lia.
  - change (fetched (inr doc :: outcomes)) with (doc :: fetched outcomes).
    cbn [length]. lia.
Qed.

End Facts.

Lemma own_of_row {V} (o : JsObject.obj V) k v :
  NoDup (List.map fst o) -> (k, v) ∈ o -> JsObject.own o k = Some v.
Proof.
  induction o as [|[k' v'] o IH]; intros Hnd Hin; [by apply elem_of_nil in Hin|].
  cbn [List.map fst] in Hnd. apply NoDup_cons in Hnd as [Hk' Hnd]. cbn [JsObject.own].
  apply elem_of_cons in Hin as [[= -> ->]|Hin]; [by rewrite String.eqb_refl|].
  destruct (String.eqb_spec k' k) as [->|]; [|by apply IH].
  exfalso. apply Hk'. apply list_elem_of_In, in_map_iff. exists (k, v).
  split; [done|]. by apply list_elem_of_In.
Qed.

Lemma revisions_distinct p : p ∈ revisions -> NoDup (List.map fst (program_endpoints p)).
Proof.
  intros Hp. apply list_elem_of_In in Hp.
  destruct Hp as [<-|[<-|[]]]; apply (bool_decide_unpack _); vm_compute; reflexivity.
Qed.

Section Programs.

Context (toLowerCase : string -> string)
        (load : string -> list node) (render : list node -> string)
        (origin : list event -> string -> error + string).

Local Abbreviation fetch p :=
  (fetchDoc load render origin
     (program_revision p) (program_baseUrl p) (program_endpoints p)).
Local Abbreviation search p :=
  (searchDocs toLowerCase load render origin
     (program_revision p) (program_baseUrl p) (program_endpoints p)).
Local Abbreviation answer p :=
  (response origin (program_revision p) (program_baseUrl p) (program_endpoints p)).



Lemma revisions_urls p :
  p ∈ revisions ->
  List.map
    (fun element =>
       request_url (program_revision p) (program_baseUrl p)
         (JsObject.get (program_endpoints p) element))
    (List.map fst (program_endpoints p))
  = List.map (fun kv => program_baseUrl p +:+ snd kv) (program_endpoints p)
  /\ Forall (fun element => truthy (JsObject.get (program_endpoints p) element) = true)
       (List.map fst (program_endpoints p)).
Proof.
  intros Hp. pose proof (revisions_distinct p Hp) as Hnd.
  assert (Hrow : forall kv, kv ∈ program_endpoints p ->
            JsObject.get (program_endpoints p) (fst kv) = JsObject.Own (snd kv)
            /\ truthy (JsObject.get (program_endpoints p) (fst kv)) = true
            /\ request_url (program_revision p) (program_baseUrl p) (JsObject.Own (snd kv))
               = program_baseUrl p +:+ snd kv).
  { intros [k v] Hin. cbn [fst snd].
    pose proof (own_of_row _ k v Hnd Hin) as Hown.
    destruct (revisions_row p k v Hp Hown) as (Hpath & Hhead & Hsame).
    destruct (get_own _ _ _ Hown Hpath) as [Hget Ht]. split; [done|]. split; [done|].
    rewrite request_url_collapsed; [done|done|]. by intros _. }
  split.
  - rewrite List.map_map. apply map_ext_in. intros kv Hin%list_elem_of_In.
    destruct (Hrow kv Hin) as (-> & _ & ->). done.
  - apply Forall_forall. intros element Hin%list_elem_of_In.
    apply in_map_iff in Hin as (kv & <- & Hin%list_elem_of_In).
    by destruct (Hrow kv Hin) as (_ & ? & _).
Qed.

(** X7.  In both revisions a search sends one GET for each name of the
    endpoint table, to the base URL followed by the path of the name, in
    table order, whatever the query is and however the fetches end: it
    stops early on no match and on no failure.  It returns no more
    records than the table has names. *)
Theorem searchDocs_requests_every_page p query s :
  p ∈ revisions ->
  gets (trace (snd (search p query s)))
  = gets (trace s)
    ++ List.map (fun kv => program_baseUrl p +:+ snd kv) (program_endpoints p)
  /\ exists results,
       fst (search p query s) = inr results
       /\ (length results <= length (program_endpoints p))%nat.
Proof.
  intros Hp. destruct (revisions_urls p Hp) as [Hurls Hall].
  destruct (revisions_rows p Hp) as [_ Hplain].
  rewrite search_succeeds, (keys_plain _ Hplain). cbn [fst snd]. split.
  - by rewrite each_gets, Hurls.
  - eexists. split; [reflexivity|].
    etrans; [apply List.filter_length_le|]. etrans; [apply fetched_length|].
    by rewrite each_length, length_map.
Qed.

End Programs.

End OutcomeFacts.

(** ** The dispatcher and the tools it lists *)

Module ToolFacts.
Import Cheerio Server ServerFacts OutcomeFacts Tools.

Section Facts.

Context (toLowerCase : string -> string)
        (load : string -> list node) (render : list node -> string)
        (origin : list event -> string -> error + string)
        (rev : revision) (baseUrl : string) (endpoints : JsObject.obj string).

Local Abbreviation fetch := (fetchDoc load render origin rev baseUrl endpoints).
Local Abbreviation search := (searchDocs toLowerCase load render origin rev baseUrl endpoints).
Local Abbreviation call := (call_tool toLowerCase load render origin rev baseUrl endpoints).

Lemma get_present (args : JsObject.obj string) k v :
  JsObject.own args k = Some v -> v <> EmptyString ->
  truthy (JsObject.get args k) = true /\ to_string (JsObject.get args k) = v.
Proof. intros H Hv. unfold JsObject.get. rewrite H. by destruct v. Qed.

(** X8.  A call of [search_api] with a query that is not empty never
    fails: whatever the origin does, the answer is one text item, and
    the state is the one the search leaves. *)
Theorem search_api_always_answers args query s :
  JsObject.own args "query" = Some query -> query <> EmptyString ->
  exists text,
    call {| name := "search_api"; arguments := Some args |} s
    = (inr [TextContent text], snd (search query s)).
Proof.
  intros Hown Hne. destruct (get_present args "query" query Hown Hne) as [Ht Hs].
  unfold call_tool. cbn [arguments name].
  change (String.eqb "search_api" "get_element_api") with false.
  change (String.eqb "search_api" "search_api") with true. cbv iota.
  rewrite Ht, Hs. cbn [negb]. unfold bind.
  rewrite (search_succeeds toLowerCase load render origin rev baseUrl endpoints query s).
  eexists. reflexivity.
Qed.

Lemma call_get_element args s :
  call {| name := "get_element_api"; arguments := Some args |} s
  = if truthy (JsObject.get args "element")
    then match fetch (to_string (JsObject.get args "element")) s with
         | (inr doc, s') =>
             (inr [TextContent (Json.stringify_pretty (json_of_doc doc))], s')
         | (inl e, s') => (inl e, s')
         end
    else (inl (McpError InvalidParams "Missing element parameter"), s).
Proof.
  unfold call_tool. cbn [arguments name].
  change (String.eqb "get_element_api" "get_element_api") with true. cbv iota.
  by destruct (truthy _).
Qed.

Lemma call_search args s :
  call {| name := "search_api"; arguments := Some args |} s
  = if truthy (JsObject.get args "query")
    then match search (to_string (JsObject.get args "query")) s with
         | (inr results, s') =>
             (inr [TextContent
                     (Json.stringify_pretty
                        (Json.JArray (List.map json_of_doc results)))], s')
         | (inl e, s') => (inl e, s')
         end
    else (inl (McpError InvalidParams "Missing query parameter"), s).
Proof.
  unfold call_tool. cbn [arguments name].
  change (String.eqb "search_api" "get_element_api") with false.
  change (String.eqb "search_api" "search_api") with true. cbv iota.
  by destruct (truthy _).
Qed.

Lemma listed_names name :
  In name (List.map tool_name list_tools)
  <-> name = "get_element_api" \/ name = "search_api".
Proof. cbn. intuition congruence. Qed.

(** X9.  The dispatcher handles the tools it lists and no other.  A
    request that carries arguments ends in [MethodNotFound] exactly when
    it names none of the listed tools; and for each listed tool, a
    request whose arguments lack a field the schema of the tool requires
    is rejected with [InvalidParams] and a message naming that field,
    the state untouched. *)
Theorem listed_tools_are_the_handled_ones :
  (forall req args s,
     arguments req = Some args ->
     (In (name req) (List.map tool_name list_tools)
      <-> forall message, fst (call req s) <> inl (McpError MethodNotFound message)))
  /\ (forall tool field args s,
        In tool list_tools -> In field (schema_required (inputSchema tool)) ->
        JsObject.own args field = None ->
        call {| name := tool_name tool; arguments := Some args |} s
        = (inl (McpError InvalidParams ("Missing " +:+ field +:+ " parameter")), s)).
Proof.
  split.
  - intros [name args'] args s Hargs. cbn [arguments Server.name] in *. subst args'.
    rewrite listed_names. split.
    + intros [->| ->] message.
      * rewrite call_get_element. destruct (truthy _); [|done].
        pose proof (fetch_not_method_not_found load render origin rev baseUrl endpoints
                      (to_string (JsObject.get args "element")) s message) as H.
        destruct (fetch _ s) as [[e|doc] s']; cbn [fst] in *; [|done].
        intros [= ->]. by apply H.
      * rewrite call_search. destruct (truthy _); [|done].
        by rewrite (search_succeeds toLowerCase load render origin rev baseUrl endpoints).
    + intros H.
      destruct (String.eqb_spec name "get_element_api") as [|Hn1]; [by left|].
      destruct (String.eqb_spec name "search_api") as [|Hn2]; [by right|].
      exfalso. apply (H ("Unknown tool: " +:+ name)).
      unfold call_tool. cbn [arguments Server.name].
      apply String.eqb_neq in Hn1, Hn2. by rewrite Hn1, Hn2.
  - intros tool field args s Htool Hfield Hown.
    destruct Htool as [<-|[<-|[]]]; destruct Hfield as [<-|[]].
    + rewrite call_get_element. by rewrite (get_absent args "element" Hown eq_refl).
    + rewrite call_search. by rewrite (get_absent args "query" Hown eq_refl).
Qed.

End Facts.

End ToolFacts.

(** ** The fold of the ASCII letters *)

Module CasingFacts.
Import Js Chars Spec JsFacts TrimFacts.




Lemma lower_ascii_append a b : lower_ascii (a +:+ b) = lower_ascii a +:+ lower_ascii b.
Proof.
  induction a as [|x a IH]; [done|].
  rewrite append_cons. cbn [lower_ascii]. by rewrite IH, append_cons.
Qed.



(** *** The fold has what the development takes of [toLowerCase] *)


Lemma lower_ascii_head : Casing.folds_ascii_head lower_ascii.
Proof.
  intros head rest _. rewrite lower_ascii_append. apply startsWith_split. by eexists.
Qed.

Lemma lower_char_control c : control (lower_char c) = control c.
Proof. destruct c as [[] [] [] [] [] [] [] []]; reflexivity. Qed.

Lemma lower_ascii_controls : Casing.keeps_controls lower_ascii.
Proof.
  intros s. induction s as [|c s IH]; [done|]. cbn [lower_ascii some_char].
  by rewrite lower_char_control, IH.
Qed.

End CasingFacts.

(** ** The search *)

Module SearchFacts.
Import Cheerio Server ServerFacts OutcomeFacts JsFacts CasingFacts.

Section Facts.

Context (toLowerCase : string -> string)
        (load : string -> list node) (render : list node -> string)
        (origin : list event -> string -> error + string)
        (rev : revision) (baseUrl : string) (endpoints : JsObject.obj string).

Local Abbreviation search := (searchDocs toLowerCase load render origin rev baseUrl endpoints).
Local Abbreviation each := (fetch_each load render origin rev baseUrl endpoints).


End Facts.

End SearchFacts.

(** ** Queries that match every record, and queries that match none *)

Module QueryFacts.
Import Cheerio Server ServerFacts OutcomeFacts Chars Js.

Section Casing.

Context (toLowerCase : string -> string).


Lemma startsWith_append_l a b needle :
  startsWith a needle = true -> startsWith (a +:+ b) needle = true.
Proof.
  revert a. induction needle as [|n needle IH]; intros a; [done|].
  destruct a as [|c a]; [done|].
  rewrite JsFacts.append_cons, !JsFacts.startsWith_cons.
  intros [-> H]%andb_true_iff. by rewrite (IH a H).
Qed.

Lemma includes_append_l a b needle :
  includes a needle = true -> includes (a +:+ b) needle = true.
Proof.
  induction a as [|c a IH].
  - cbn [includes]. rewrite orb_false_r. destruct needle; [|done]. by destruct b.
  - rewrite JsFacts.append_cons. cbn [includes].
    intros [H|H]%orb_true_iff.
    + rewrite <- JsFacts.append_cons. by rewrite (startsWith_append_l _ b _ H).
    + rewrite (IH H). apply orb_true_r.
Qed.

(** The serialized form of a record opens the same way whatever the
    record holds. *)
Lemma stringify_opening doc :
  exists rest, Json.stringify (json_of_doc doc) = record_opening +:+ rest.
Proof. eexists. reflexivity. Qed.

Lemma opening_matches query doc :
  Casing.folds_ascii_head toLowerCase ->
  includes record_opening (toLowerCase query) = true ->
  matches_query toLowerCase query doc = true.
Proof.
  intros Hhead H. unfold matches_query. destruct (stringify_opening doc) as [rest ->].
  pose proof (Hhead record_opening rest eq_refl) as Hs.
  apply JsFacts.startsWith_split in Hs as [rest' ->].
  change (lower_ascii record_opening) with record_opening. by apply includes_append_l.
Qed.

Lemma filter_all {A} (f : A -> bool) l :
  (forall x, f x = true) -> List.filter f l = l.
Proof. intros H. induction l as [|x l IH]; [done|]. cbn. by rewrite H, IH. Qed.

Lemma filter_none {A} (f : A -> bool) l :
  (forall x, f x = false) -> List.filter f l = [].
Proof. intros H. induction l as [|x l IH]; [done|]. cbn. by rewrite H, IH. Qed.

(** *** Control characters *)

Lemma some_char_append f a b :
  some_char f (a +:+ b) = some_char f a || some_char f b.
Proof.
  induction a as [|c a IH]; [done|].
  rewrite JsFacts.append_cons. cbn [some_char]. by rewrite IH, orb_assoc.
Qed.

Lemma some_char_join f sep l :
  some_char f sep = false -> Forall (fun x => some_char f x = false) l ->
  some_char f (join sep l) = false.
Proof.
  intros Hsep. induction 1 as [|x l Hx Hl IH]; [done|].
  destruct l as [|y l]; [done|].
  change (join sep (x :: y :: l)) with (x +:+ sep +:+ join sep (y :: l)).
  by rewrite !some_char_append, Hx, Hsep, IH.
Qed.

Lemma escape_char_plain c : some_char control (Json.escape_char c) = false.
Proof. destruct c as [[] [] [] [] [] [] [] []]; reflexivity. Qed.

Lemma escape_plain s : some_char control (Json.escape s) = false.
Proof.
  induction s as [|c s IH]; [done|]. cbn [Json.escape].
  by rewrite some_char_append, escape_char_plain, IH.
Qed.

Lemma quote_plain s : some_char control (Json.quote s) = false.
Proof.
  unfold Json.quote. cbn [some_char]. by rewrite some_char_append, escape_plain.
Qed.

Lemma stringify_parameter_plain p :
  some_char control (Json.stringify (json_of_parameter p)) = false.
Proof.
  unfold json_of_parameter. cbn [Json.stringify List.map fst snd join].
  rewrite !some_char_append, !quote_plain. by destruct (param_required p).
Qed.

(** The serialized form of a record holds no control character: the
    line breaks and tabs of its texts are written as escapes. *)
Lemma stringify_doc_plain doc :
  some_char control (Json.stringify (json_of_doc doc)) = false.
Proof.
  unfold json_of_doc. cbn [Json.stringify List.map fst snd join].
  rewrite !some_char_append, !quote_plain. cbn [orb some_char].
  rewrite !some_char_join; [done|done| |done|].
  - apply Forall_forall. intros x Hx%list_elem_of_In.
    apply in_map_iff in Hx as (j & <- & Hj). apply in_map_iff in Hj as (e & <- & _).
    apply quote_plain.
  - apply Forall_forall. intros x Hx%list_elem_of_In.
    apply in_map_iff in Hx as (j & <- & Hj). apply in_map_iff in Hj as (p & <- & _).
    apply stringify_parameter_plain.
Qed.

Lemma startsWith_some_char f s needle :
  startsWith s needle = true -> some_char f needle = true -> some_char f s = true.
Proof.
  revert s. induction needle as [|n needle IH]; intros s; [done|].
  destruct s as [|c s]; [done|]. rewrite JsFacts.startsWith_cons.
  intros [Hc Hs]%andb_true_iff. apply Ascii.eqb_eq in Hc as ->. cbn [some_char].
  intros [->|Hn]%orb_true_iff; [done|]. rewrite (IH s Hs Hn). apply orb_true_r.
Qed.

Lemma includes_some_char f s needle :
  includes s needle = true -> some_char f needle = true -> some_char f s = true.
Proof.
  induction s as [|c s IH]; cbn [includes].
  - rewrite orb_false_r. apply startsWith_some_char.
  - intros [H|H]%orb_true_iff Hn; [by apply (startsWith_some_char f _ needle)|].
    cbn [some_char]. rewrite (IH H Hn). apply orb_true_r.
Qed.

Lemma control_never_matches query doc :
  Casing.keeps_controls toLowerCase ->
  some_char control query = true -> matches_query toLowerCase query doc = false.
Proof.
  intros Hkeep Hq. unfold matches_query.
  destruct (includes _ _) eqn:Hi; [|done].
  apply (includes_some_char control) in Hi; [|by rewrite Hkeep].
  by rewrite Hkeep, stringify_doc_plain in Hi.
Qed.

End Casing.

Section Facts.

Context (toLowerCase : string -> string)
        (load : string -> list node) (render : list node -> string)
        (origin : list event -> string -> error + string)
        (rev : revision) (baseUrl : string) (endpoints : JsObject.obj string).

Local Abbreviation search := (searchDocs toLowerCase load render origin rev baseUrl endpoints).
Local Abbreviation each := (fetch_each load render origin rev baseUrl endpoints).

(** X10.  The query is looked for in the serialized record, keys and
    punctuation included.  A query that occurs, letter case aside, in
    the opening every serialized record has (a brace, the quoted key
    title, a colon and a quote) matches every record: the search
    returns every record it could fetch.  The empty query and the query
    title are such queries.  Of [toLowerCase] this takes that it folds
    an ASCII head of a string as it stands. *)
Theorem search_for_a_key_returns_everything query s :
  Casing.folds_ascii_head toLowerCase ->
  includes record_opening (toLowerCase query) = true ->
  (forall doc, matches_query toLowerCase query doc = true)
  /\ fst (search query s) = inr (fetched (fst (each (JsObject.keys endpoints) s))).
Proof.
  intros Hhead H. split; [intros doc; by apply opening_matches|].
  rewrite (search_succeeds toLowerCase load render origin rev baseUrl endpoints). cbn [fst].
  f_equal. apply filter_all. intros doc. by apply opening_matches.
Qed.

(** X11.  A query that holds a control character, such as a line break
    or a tab, matches no record and the search returns nothing, even
    where a description holds that very text: the serialized record has
    the character as an escape.  Of [toLowerCase] this takes that no
    control character comes or goes. *)
Theorem search_for_a_line_break_returns_nothing query s :
  Casing.keeps_controls toLowerCase ->
  some_char control query = true ->
  (forall doc, matches_query toLowerCase query doc = false)
  /\ fst (search query s) = inr [].
Proof.
  intros Hkeep H. split; [intros doc; by apply control_never_matches|].
  rewrite (search_succeeds toLowerCase load render origin rev baseUrl endpoints). cbn [fst].
  f_equal. apply filter_none. intros doc. by apply control_never_matches.
Qed.

End Facts.

End QueryFacts.

(** ** What an operation leaves behind *)

Module FrameFacts.
Import Cheerio Server ServerFacts OutcomeFacts Kept.

Lemma appends_refl s : appends s s.
Proof.
  exists []. split; [|constructor]. destruct s. unfold extend. cbn. by rewrite app_nil_r.
Qed.

Lemma appends_trans s1 s2 s3 : appends s1 s2 -> appends s2 s3 -> appends s1 s3.
Proof.
  intros (es1 & -> & H1) (es2 & -> & H2). exists (es1 ++ es2).
  split; [by rewrite extend_extend|]. by apply Forall_app.
Qed.

Lemma appends_log s line err : appends s (extend s [ConsoleError line err]).
Proof. eexists. split; [done|]. by repeat constructor. Qed.

Section Facts.

Context (toLowerCase : string -> string)
        (load : string -> list node) (render : list node -> string)
        (origin : list event -> string -> error + string)
        (rev : revision) (baseUrl : string) (endpoints : JsObject.obj string).

Local Abbreviation fetch := (fetchDoc load render origin rev baseUrl endpoints).
Local Abbreviation search := (searchDocs toLowerCase load render origin rev baseUrl endpoints).
Local Abbreviation each := (fetch_each load render origin rev baseUrl endpoints).
Local Abbreviation call := (call_tool toLowerCase load render origin rev baseUrl endpoints).

Lemma fetch_appends element s : appends s (snd (fetch element s)).
Proof.
  destruct (truthy (JsObject.get endpoints element)) eqn:Ht.
  - rewrite (fetch_known load render origin rev baseUrl endpoints element s Ht).
    destruct (response _ _ _ _ _ _) as [e|data]; [|destruct (Js.truthy_string data)];
      cbn [snd]; eexists; (split; [reflexivity|]); by repeat constructor.
  - rewrite (fetch_unknown load render origin rev baseUrl endpoints element s Ht).
    apply appends_refl.
Qed.

Lemma each_appends elements : forall s, appends s (snd (each elements s)).
Proof.
  induction elements as [|element rest IH]; intros s; [apply appends_refl|].
  cbn [fetch_each]. pose proof (fetch_appends element s) as Hf.
  destruct (fetch element s) as [r s1]. cbn [snd] in Hf.
  match goal with |- context [each rest ?s2] =>
    pose proof (IH s2) as Hr; destruct (each rest s2) as [rs s3] eqn:He end.
  cbn [snd] in *. apply (appends_trans _ _ _ Hf). destruct r as [e|doc]; [|done].
  eapply appends_trans; [|exact Hr]. apply appends_log.
Qed.

Lemma search_appends query s : appends s (snd (search query s)).
Proof.
  rewrite (search_succeeds toLowerCase load render origin rev baseUrl endpoints). apply each_appends.
Qed.

Lemma call_appends req s : appends s (snd (call req s)).
Proof.
  unfold call_tool. destruct (arguments req) as [args|]; [|apply appends_refl].
  destruct (String.eqb (name req) "get_element_api").
  - destruct (truthy (JsObject.get args "element")); [|apply appends_refl].
    cbn [negb]. unfold bind.
    pose proof (fetch_appends (to_string (JsObject.get args "element")) s) as H.
    by destruct (fetch _ s) as [[e|doc] s1].
  - destruct (String.eqb (name req) "search_api"); [|apply appends_refl].
    destruct (truthy (JsObject.get args "query")); [|apply appends_refl].
    cbn [negb]. unfold bind.
    pose proof (search_appends (to_string (JsObject.get args "query")) s) as H.
    by destruct (search _ s) as [[e|docs] s1].
Qed.

(** X12.  Whatever is fetched, searched or called, in whatever order,
    the server only adds to what it has done: the state afterwards is
    the state before with further events at the end, its cache and its
    time of the last fetch as they were, and every GET among the new
    events carries the same three headers. *)
Theorem operations_only_append calls s :
  exists es,
    invoke_all toLowerCase load render origin rev baseUrl endpoints calls s = extend s es
    /\ browser_like es
    /\ lastFetch (invoke_all toLowerCase load render origin rev baseUrl endpoints calls s)
       = lastFetch s.
Proof.
  assert (H : appends s (invoke_all toLowerCase load render origin rev baseUrl endpoints calls s)).
  { unfold invoke_all. revert s.
    induction calls as [|i calls IH]; intros s; [apply appends_refl|].
    cbn [fold_left]. eapply appends_trans; [|apply IH].
    destruct i; [apply fetch_appends|apply search_appends|apply call_appends]. }
  destruct H as (es & -> & Hes). by exists es.
Qed.

End Facts.

End FrameFacts.

(** ** The endpoint tables *)

Module TableFacts.
Import Server ServerFacts Kept.

(** X13.  In the later revision every name leads to the page of that
    name: its path is the name between slashes, alone or after the
    section.  The earlier revision keeps to this for every name but
    slider, which it sends to the page of the range slider. *)
Theorem names_lead_to_their_pages element path :
  (JsObject.own MarimoDocs.endpoints element = Some path ->
   path = "/" +:+ element +:+ "/"
   \/ path = "/" +:+ section_of path +:+ "/" +:+ element +:+ "/")
  /\ (JsObject.own MarimoDocsInputs.endpoints element = Some path ->
      element <> "slider" -> path = "/" +:+ element +:+ "/")
  /\ JsObject.own MarimoDocsInputs.endpoints "slider" = Some "/range_slider/".
Proof.
  split; [|split; [|done]].
  - intros Hown%own_elem_of%list_elem_of_In.
    assert (Hall : forallb named_after MarimoDocs.endpoints = true)
      by (vm_compute; reflexivity).
    pose proof (proj1 (forallb_forall _ _) Hall _ Hown) as H.
    unfold named_after in H. cbn [fst snd] in H.
    apply orb_true_iff in H as [H|H]; apply String.eqb_eq in H; auto.
  - intros Hown%own_elem_of%list_elem_of_In Hne.
    assert (Hall : forallb (fun kv => String.eqb (fst kv) "slider"
                                      || String.eqb (snd kv) ("/" +:+ fst kv +:+ "/"))
                     MarimoDocsInputs.endpoints = true)
      by (vm_compute; reflexivity).
    pose proof (proj1 (forallb_forall _ _) Hall _ Hown) as H. cbn [fst snd] in H.
    apply orb_true_iff in H as [H|H]; apply String.eqb_eq in H; [done|auto].
Qed.

End TableFacts.

(** ** A section named like a member of [Object.prototype] *)

Module PrototypeFacts.
Import Cheerio Server ServerFacts OutcomeFacts Kept.

Lemma own_set_other {V} (o : JsObject.obj V) k k' v :
  k <> k' -> JsObject.own (JsObject.set o k v) k' = JsObject.own o k'.
Proof.
  intros Hne%String.eqb_neq.
  induction o as [|[k0 v0] o IH]; cbn [JsObject.set JsObject.own].
  - by rewrite Hne.
  - destruct (String.eqb_spec k0 k) as [->|Hk]; cbn [JsObject.own].
    + by rewrite Hne.
    + by rewrite IH.
Qed.

Lemma group_step_own_sections groups kv groups' :
  own_sections groups -> group_step (inr groups) kv = inr groups' ->
  own_sections groups'.
Proof.
  intros Hinv. unfold group_step, JsObject.get.
  destruct (JsObject.own groups (section_of kv.2)) as [names|] eqn:Hown.
  - intros [= <-] k Hk. rewrite own_set_other; [by apply Hinv|].
    intros Heq. rewrite Heq in Hown. by rewrite (Hinv _ Hk) in Hown.
  - destruct (JsObject.inherited (section_of kv.2)) eqn:Hs; [done|].
    intros [= <-] k Hk. rewrite own_set_other; [by apply Hinv|]. congruence.
Qed.

Lemma fold_group_step_fails l : forall groups,
  own_sections groups ->
  Exists (fun kv => JsObject.inherited (section_of (snd kv)) = true) l ->
  fold_left group_step l (inr groups) = inl not_a_function.
Proof.
  induction l as [|kv l IH]; intros groups Hinv Hex; [by apply Exists_nil in Hex|].
  cbn [fold_left].
  destruct (group_step (inr groups) kv) as [e|groups'] eqn:Hstep.
  - assert (e = not_a_function) as ->.
    { apply (fold_group_step_error [kv] (inr groups)); [done|by cbn]. }
    clear. induction l as [|kv' l IH]; [done|]. apply IH.
  - apply IH; [by eapply group_step_own_sections|].
    apply Exists_cons in Hex as [Hkv|Hex]; [|done].
    exfalso. revert Hstep. unfold group_step, JsObject.get.
    by rewrite (Hinv _ Hkv), Hkv.
Qed.

Lemma group_by_section_fails endpoints :
  Exists (fun kv => JsObject.inherited (section_of (snd kv)) = true)
    (JsObject.entries endpoints) ->
  group_by_section endpoints = inl not_a_function.
Proof. intros Hex. unfold group_by_section. by apply fold_group_step_fails. Qed.

Section Facts.

Context (load : string -> list node) (render : list node -> string)
        (origin : list event -> string -> error + string)
        (baseUrl : string) (endpoints : JsObject.obj string).

(** X14.  In the later revision the report of an unknown element groups
    the names in a plain object.  When some path of the table has a
    section named like a member of [Object.prototype], such as
    constructor, the grouping reads that member where it expects a list
    and fails: the raw [TypeError] leaves [fetchDoc] for every name that
    does not resolve, in place of [InvalidParams]. *)
Theorem prototype_section_breaks_the_report element s :
  truthy (JsObject.get endpoints element) = false ->
  Exists (fun kv => JsObject.inherited (section_of (snd kv)) = true)
    (JsObject.entries endpoints) ->
  fetchDoc load render origin AllSections baseUrl endpoints element s
  = (inl (TypeError "elementsBySection[section].push is not a function"), s).
Proof.
  intros Ht Hex.
  rewrite (fetch_unknown load render origin AllSections baseUrl endpoints element s Ht).
  unfold unknown_element. by rewrite (group_by_section_fails endpoints Hex).
Qed.

End Facts.

End PrototypeFacts.

(** ** The further statements at concrete inputs *)

Module Instances.
Import Cheerio Server Examples Kept.

Lemma replace_dup_slashes_only_drops_slashes_witness :
  Js.replace_dup_slashes "https://docs.marimo.io/api/inputs/slider/"
  = "https://docs.marimo.io/api/inputs/slider/".
Proof.
  apply (proj1 (proj2 (proj2 (proj2
           (SlashFacts.replace_dup_slashes_only_drops_slashes
              "https://docs.marimo.io/api/inputs/slider/"))))).
  reflexivity.
Defined.

Lemma section_of_second_piece_witness :
  section_of "/inputs/array/" = "inputs"
  /\ section_of "inputs/array/" = "array"
  /\ section_of "/markdown" = "markdown"
  /\ section_of "markdown" = "other".
Proof.
  split; [|split; [|split]].
  - apply (proj1 (SectionFacts.section_of_second_piece EmptyString "inputs" "array/"
                    eq_refl eq_refl)). discriminate.
  - apply (proj1 (SectionFacts.section_of_second_piece "inputs" "array" EmptyString
                    eq_refl eq_refl)). discriminate.
  - apply (proj1 (SectionFacts.section_of_second_piece EmptyString "markdown" EmptyString
                    eq_refl eq_refl)). discriminate.
  - apply (proj2 (SectionFacts.section_of_second_piece "markdown" EmptyString EmptyString
                    eq_refl eq_refl)).
Defined.



Lemma searchDocs_requests_every_page_witness :
  gets (trace (snd (searchDocs Js.lower_ascii SimpleHtml.load SimpleHtml.render refused
                      MarimoDocsInputs.revision MarimoDocsInputs.baseUrl
                      MarimoDocsInputs.endpoints "slider" initial)))
  = List.map (fun kv => MarimoDocsInputs.baseUrl +:+ snd kv) MarimoDocsInputs.endpoints.
Proof.
  apply (OutcomeFacts.searchDocs_requests_every_page Js.lower_ascii
           SimpleHtml.load SimpleHtml.render
           refused MarimoDocsInputs.program "slider" initial).
  right. left.
Defined.

Lemma search_api_always_answers_witness :
  exists text,
    call_tool Js.lower_ascii SimpleHtml.load SimpleHtml.render refused
      MarimoDocs.revision MarimoDocs.baseUrl MarimoDocs.endpoints
      {| name := "search_api"; arguments := Some [("query", "slider")] |} initial
    = (inr [TextContent text],
       snd (searchDocs Js.lower_ascii SimpleHtml.load SimpleHtml.render refused
              MarimoDocs.revision MarimoDocs.baseUrl MarimoDocs.endpoints
              "slider" initial)).
Proof.
  apply (ToolFacts.search_api_always_answers Js.lower_ascii
           SimpleHtml.load SimpleHtml.render refused
           MarimoDocs.revision MarimoDocs.baseUrl MarimoDocs.endpoints
           [("query", "slider")] "slider" initial); [reflexivity|discriminate].
Defined.

Lemma listed_tools_are_the_handled_ones_witness :
  call_tool Js.lower_ascii SimpleHtml.load SimpleHtml.render refused
    MarimoDocs.revision MarimoDocs.baseUrl MarimoDocs.endpoints
    {| name := "search_api"; arguments := Some [("element", "slider")] |} initial
  = (inl (McpError InvalidParams "Missing query parameter"), initial).
Proof.
  apply (proj2 (ToolFacts.listed_tools_are_the_handled_ones Js.lower_ascii
                  SimpleHtml.load SimpleHtml.render refused
                  MarimoDocs.revision MarimoDocs.baseUrl MarimoDocs.endpoints)
           Tools.search_api "query" [("element", "slider")] initial).
  - right. left. reflexivity.
  - left. reflexivity.
  - reflexivity.
Defined.

Lemma search_for_a_key_returns_everything_witness :
  fst (searchDocs Js.lower_ascii SimpleHtml.load SimpleHtml.render
         (only_at "https://docs.marimo.io/api/inputs/button/" Scenario.page)
         MarimoDocsInputs.revision MarimoDocsInputs.baseUrl MarimoDocsInputs.endpoints
         "Title" initial)
  = inr [{| title := "Slider"; description := "A slider.";
            parameters := []; examples := [] |}].
Proof.
  pose proof (QueryFacts.search_for_a_key_returns_everything Js.lower_ascii
                SimpleHtml.load SimpleHtml.render
                (only_at "https://docs.marimo.io/api/inputs/button/" Scenario.page)
                MarimoDocsInputs.revision MarimoDocsInputs.baseUrl
                MarimoDocsInputs.endpoints "Title" initial
                CasingFacts.lower_ascii_head eq_refl) as [_ H].
  rewrite H. vm_compute. reflexivity.
Defined.

Lemma search_for_a_line_break_returns_nothing_witness :
  fst (searchDocs Js.lower_ascii SimpleHtml.load SimpleHtml.render (serving Scenario.page)
         MarimoDocsInputs.revision MarimoDocsInputs.baseUrl MarimoDocsInputs.endpoints
         ("A slider." +:+ Json.newline) initial)
  = inr [].
Proof.
  apply (QueryFacts.search_for_a_line_break_returns_nothing Js.lower_ascii
           SimpleHtml.load SimpleHtml.render (serving Scenario.page)
           MarimoDocsInputs.revision MarimoDocsInputs.baseUrl MarimoDocsInputs.endpoints
           ("A slider." +:+ Json.newline) initial).
  - apply CasingFacts.lower_ascii_controls.
  - reflexivity.
Defined.

Lemma names_lead_to_their_pages_witness :
  "/inputs/slider/" = "/" +:+ "slider" +:+ "/"
  \/ "/inputs/slider/" = "/" +:+ section_of "/inputs/slider/" +:+ "/" +:+ "slider" +:+ "/".
Proof.
  apply (proj1 (TableFacts.names_lead_to_their_pages "slider" "/inputs/slider/")).
  reflexivity.
Defined.

Lemma prototype_section_breaks_the_report_witness :
  fetchDoc SimpleHtml.load SimpleHtml.render refused AllSections
    MarimoDocs.baseUrl odd_table "sliders" initial
  = (inl (TypeError "elementsBySection[section].push is not a function"), initial).
Proof.
  apply (PrototypeFacts.prototype_section_breaks_the_report
           SimpleHtml.load SimpleHtml.render refused MarimoDocs.baseUrl odd_table
           "sliders" initial).
  - reflexivity.
  - right. left. reflexivity.
Defined.

End Instances.
